(** * iambic: change classification and account-scope reconciliation

    A shallow embedding of [iambic/core/git.py]: the revision differencer
    [retrieve_git_changes], the deletion materializer
    [create_templates_for_deleted_files] and the scope reconciler
    [create_templates_for_modified_files], together with the part of Python's
    [re.search] and [os.path.join] that this code relies on.

    Python exceptions are results of type [result]; the log and the remote
    fetches of [retrieve_git_changes] are a trace of events.  The
    [log.debug] / [log.info] calls inside the reconciliation loops carry no
    data flow and are left out. *)

From Stdlib Require Import String Ascii List Bool Arith Lia.
Import ListNotations.
Local Open Scope string_scope.
Local Open Scope list_scope.

Set Implicit Arguments.

(** ** Exceptions *)

Inductive exn : Type :=
| ReError            (* re.error: the pattern does not compile *)
| ReUnsupported      (* pattern outside the fragment of [re] modelled here *)
| KeyError           (* missing dict key, e.g. unknown template_type *)
| TypeError          (* e.g. subscripting None *)
| AttributeError     (* attribute of None, e.g. a missing blob *)
| ValidationError    (* pydantic rejects the document *)
| YAMLError          (* yaml.load fails *)
| FileNotFoundError  (* open() of a path absent from the working tree *)
| BadName            (* repo.commit cannot resolve the revision *)
| ValueError.        (* raised by main_or_master *)

Inductive result (A : Type) : Type :=
| Ok (a : A)
| Raise (e : exn).
Arguments Raise {A} e.

Definition bind {A B : Type} (m : result A) (k : A -> result B) : result B :=
  match m with
  | Ok a => k a
  | Raise e => Raise e
  end.

Declare Scope result_scope.
Delimit Scope result_scope with result.
Notation "x <- m ;; k" := (bind m (fun x => k))
  (at level 61, m at next level, right associativity) : result_scope.
Notation "' pat <- m ;; k" := (bind m (fun x => match x with pat => k end))
  (at level 61, pat pattern, m at next level, right associativity) : result_scope.
Local Open Scope result_scope.

(** A Python [for] loop whose body may raise: the state is threaded through
    the elements in order and the first exception ends the loop. *)
Fixpoint for_each {A S : Type} (body : S -> A -> result S) (l : list A) (s : S)
  : result S :=
  match l with
  | [] => Ok s
  | a :: l' => s' <- body s a ;; for_each body l' s'
  end.

(** ** Regular expressions: the fragment of Python's [re] used on account
    matchers *)

Module Re.

Inductive regex : Type :=
| Empty                       (* matches nothing *)
| Eps                         (* matches the empty string *)
| Chr (c : ascii)             (* a literal character *)
| Any                         (* [.]: any character but a newline *)
| Cat (r1 r2 : regex)
| Alt (r1 r2 : regex)
| Star (r : regex).

Definition newline : ascii := ascii_of_nat 10.

(** Denotation: the strings a pattern matches in full. *)
Inductive matches : regex -> list ascii -> Prop :=
| MEps : matches Eps []
| MChr c : matches (Chr c) [c]
| MAny c : c <> newline -> matches Any [c]
| MCat r1 r2 s1 s2 : matches r1 s1 -> matches r2 s2 -> matches (Cat r1 r2) (s1 ++ s2)
| MAltL r1 r2 s : matches r1 s -> matches (Alt r1 r2) s
| MAltR r1 r2 s : matches r2 s -> matches (Alt r1 r2) s
| MStar0 r : matches (Star r) []
| MStarS r s1 s2 : matches r s1 -> matches (Star r) s2 -> matches (Star r) (s1 ++ s2).

Fixpoint nullable (r : regex) : bool :=
  match r with
  | Empty => false
  | Eps => true
  | Chr _ => false
  | Any => false
  | Cat r1 r2 => nullable r1 && nullable r2
  | Alt r1 r2 => nullable r1 || nullable r2
  | Star _ => true
  end.

(** Brzozowski derivative of [r] by the character [c]. *)
Fixpoint deriv (c : ascii) (r : regex) : regex :=
  match r with
  | Empty => Empty
  | Eps => Empty
  | Chr d => if Ascii.eqb c d then Eps else Empty
  | Any => if Ascii.eqb c newline then Empty else Eps
  | Cat r1 r2 =>
      if nullable r1 then Alt (Cat (deriv c r1) r2) (deriv c r2)
      else Cat (deriv c r1) r2
  | Alt r1 r2 => Alt (deriv c r1) (deriv c r2)
  | Star r1 => Cat (deriv c r1) (Star r1)
  end.

(** Does some prefix of [s] match [r]? *)
Fixpoint match_here (r : regex) (s : list ascii) : bool :=
  nullable r ||
  match s with
  | [] => false
  | c :: s' => match_here (deriv c r) s'
  end.

(** Does [r] match somewhere in [s]?  ([re.search] scans every start
    position.) *)
Fixpoint search (r : regex) (s : list ascii) : bool :=
  match_here r s ||
  match s with
  | [] => false
  | _ :: s' => search r s'
  end.

(** *** Parsing a pattern

    One left-to-right pass with a stack of open groups.  A frame holds the
    alternatives already closed by [|], the concatenation read so far in the
    current alternative, and the last atom (with a flag telling whether a
    quantifier was already applied to it). *)

Record frame : Type := Frame {
  f_alt : option regex;
  f_seq : regex;
  f_last : option (regex * bool)
}.

Definition empty_frame : frame := Frame None Eps None.

Definition close_seq (f : frame) : regex :=
  match f_last f with
  | None => f_seq f
  | Some (a, _) => Cat (f_seq f) a
  end.

Definition close_frame (f : frame) : regex :=
  match f_alt f with
  | None => close_seq f
  | Some a => Alt a (close_seq f)
  end.

Definition push_atom (a : regex) (f : frame) : frame :=
  Frame (f_alt f) (close_seq f) (Some (a, false)).

Definition next_alt (f : frame) : frame :=
  Frame (Some (close_frame f)) Eps None.

Inductive quant : Type := QStar | QPlus | QOpt.

Definition apply_quant (q : quant) (r : regex) : regex :=
  match q with
  | QStar => Star r
  | QPlus => Cat r (Star r)
  | QOpt => Alt r Eps
  end.

(** [a**], [a+*], [a?*] are "multiple repeat" errors; [a*?], [a*+] and the
    like are lazy or possessive quantifiers, outside the fragment. *)
Definition add_quant (q : quant) (f : frame) : result frame :=
  match f_last f with
  | None => Raise ReError                       (* nothing to repeat *)
  | Some (a, false) => Ok (Frame (f_alt f) (f_seq f) (Some (apply_quant q a, true)))
  | Some (_, true) =>
      match q with
      | QStar => Raise ReError                  (* multiple repeat *)
      | _ => Raise ReUnsupported
      end
  end.

Definition is_alnum (c : ascii) : bool :=
  let n := nat_of_ascii c in
  ((48 <=? n) && (n <=? 57) || (65 <=? n) && (n <=? 90)
   || (97 <=? n) && (n <=? 122))%nat.

Inductive token : Type :=
| TOpen | TClose | TBar | TQuant (q : quant) | TDot | TEscape
| TOther          (* [ { ^ $: classes, counted repeats and anchors *)
| TLit.

Definition classify (c : ascii) : token :=
  if Ascii.eqb c "(" then TOpen
  else if Ascii.eqb c ")" then TClose
  else if Ascii.eqb c "|" then TBar
  else if Ascii.eqb c "*" then TQuant QStar
  else if Ascii.eqb c "+" then TQuant QPlus
  else if Ascii.eqb c "?" then TQuant QOpt
  else if Ascii.eqb c "." then TDot
  else if Ascii.eqb c "\" then TEscape
  else if Ascii.eqb c "[" || Ascii.eqb c "{" || Ascii.eqb c "^"
          || Ascii.eqb c "$" then TOther
  else TLit.

Definition starts_with_question (p : list ascii) : bool :=
  match p with
  | c :: _ => Ascii.eqb c "?"
  | [] => false
  end.

Fixpoint parse (p : list ascii) (cur : frame) (stack : list frame)
  : result regex :=
  match p with
  | [] =>
      match stack with
      | [] => Ok (close_frame cur)
      | _ :: _ => Raise ReError                  (* missing ), unterminated *)
      end
  | c :: p' =>
      match classify c with
      | TOpen =>
          if starts_with_question p' then Raise ReUnsupported (* (?...) *)
          else parse p' empty_frame (cur :: stack)
      | TClose =>
          match stack with
          | [] => Raise ReError                  (* unbalanced parenthesis *)
          | up :: stack' => parse p' (push_atom (close_frame cur) up) stack'
          end
      | TBar => parse p' (next_alt cur) stack
      | TQuant q => f <- add_quant q cur ;; parse p' f stack
      | TDot => parse p' (push_atom Any cur) stack
      | TEscape =>
          match p' with
          | [] => Raise ReError                  (* bad escape *)
          | d :: p'' =>
              if is_alnum d then Raise ReUnsupported
              else parse p'' (push_atom (Chr d) cur) stack
          end
      | TOther => Raise ReUnsupported
      | TLit => parse p' (push_atom (Chr c) cur) stack
      end
  end.

Definition compile (pattern : string) : result regex :=
  parse (list_ascii_of_string pattern) empty_frame [].

(** *** Patterns without metacharacters *)

Definition literal (c : ascii) : bool :=
  match classify c with
  | TLit => true
  | _ => false
  end.

(** The frame after reading a run of literal characters. *)
Definition push_lits (l : list ascii) (f : frame) : frame :=
  fold_left (fun f c => push_atom (Chr c) f) l f.

Fixpoint prefixb (x s : list ascii) : bool :=
  match x, s with
  | [], _ => true
  | _ :: _, [] => false
  | c :: x', d :: s' => Ascii.eqb c d && prefixb x' s'
  end.

(** [x] occurs in [s] as a contiguous block. *)
Fixpoint occursb (x s : list ascii) : bool :=
  prefixb x s ||
  match s with
  | [] => false
  | _ :: s' => occursb x s'
  end.

End Re.

(** [bool(re.search(pattern, s))], or the exception raised while compiling
    [pattern]. *)
Definition re_search (pattern s : string) : result bool :=
  r <- Re.compile pattern ;; Ok (Re.search r (list_ascii_of_string s)).

(** [pattern] is made of ordinary characters only. *)
Definition plain (pattern : string) : bool :=
  forallb Re.literal (list_ascii_of_string pattern).

(** [x in s] for strings: substring test. *)
Definition occurs (x s : string) : bool :=
  Re.occursb (list_ascii_of_string x) (list_ascii_of_string s).

(** ** Strings and paths *)

Definition newline_str : string := String Re.newline EmptyString.

(** [sep.join(l)] *)
Definition join (sep : string) (l : list string) : string := String.concat sep l.

(** [x in l] for a list of strings *)
Fixpoint contains (x : string) (l : list string) : bool :=
  match l with
  | [] => false
  | y :: l' => String.eqb y x || contains x l'
  end.

(** [s.endswith(suffix)] *)
Fixpoint endswith (s suffix : string) : bool :=
  String.eqb s suffix ||
  match s with
  | EmptyString => false
  | String _ s' => endswith s' suffix
  end.

Definition is_abs (p : string) : bool :=
  match p with
  | String "/" _ => true
  | _ => false
  end.

(** [os.path.join(a, b)] (posixpath) *)
Definition os_path_join (a b : string) : string :=
  if is_abs b then b
  else if String.eqb a "" || endswith a "/" then a ++ b
  else a ++ "/" ++ b.

(** ** Data model *)

(** [GitDiff]: [content] is [Optional[str] = None], [is_deleted] defaults to
    [False]. *)
Record GitDiff : Type := mkGitDiff {
  path : string;
  content : option string;
  is_deleted : bool
}.

Definition git_diff_path (g : GitDiff) : string := path g.

(** An entry of the account registry, [config.aws.accounts]. *)
Record AWSAccount : Type := mkAWSAccount {
  account_id : string;
  account_name : string
}.

Record Config : Type := mkConfig {
  aws_accounts : list AWSAccount
}.

(** Modelled from the spec: the [Deleted] model of [iambic.aws.models],
    a Deletion Directive
    [{deleted, included_accounts, excluded_accounts}]. *)
Record Deleted : Type := mkDeleted {
  d_deleted : bool;
  d_included_accounts : list string;
  d_excluded_accounts : list string
}.

(** Modelled from the spec: the [deleted] field of a template, either a
    boolean or a sequence of Deletion Directives. *)
Inductive deleted_field : Type :=
| DeletedBool (b : bool)
| DeletedList (l : list Deleted).

(** Modelled from the spec: the fields of a Template Record that
    [iambic/core/git.py] reads or writes (the template classes themselves
    live in [TEMPLATE_TYPE_MAP]). *)
Record Template : Type := mkTemplate {
  template_type : string;
  file_path : string;
  resource_id : string;
  included_accounts : list string;
  excluded_accounts : list string;
  deleted : deleted_field
}.

Definition set_included_accounts (t : Template) (l : list string) : Template :=
  mkTemplate (template_type t) (file_path t) (resource_id t) l
             (excluded_accounts t) (deleted t).

Definition set_excluded_accounts (t : Template) (l : list string) : Template :=
  mkTemplate (template_type t) (file_path t) (resource_id t)
             (included_accounts t) l (deleted t).

Definition set_deleted (t : Template) (d : deleted_field) : Template :=
  mkTemplate (template_type t) (file_path t) (resource_id t)
             (included_accounts t) (excluded_accounts t) d.

(** [template.deleted is True] *)
Definition deleted_is_true (t : Template) : bool :=
  match deleted t with
  | DeletedBool true => true
  | _ => false
  end.

(** ** Scope reconciler: the body of the loop of
    [create_templates_for_modified_files] *)

(** The two variables the passes update together: the accumulator
    [deleted_included_accounts] and the current [template]. *)
Record scope : Type := mkScope {
  deleted_included_accounts : list string;
  template : Template
}.

(** [deleted_included_accounts.append(a); template.included_accounts.append(a)] *)
Definition mark_for_deletion (a : string) (st : scope) : scope :=
  mkScope (deleted_included_accounts st ++ [a])
          (set_included_accounts (template st)
             (included_accounts (template st) ++ [a])).

(** [rf"({aws_account.account_id}|{aws_account.account_name})"] *)
Definition account_regex (aws_account : AWSAccount) : string :=
  "(" ++ account_id aws_account ++ "|" ++ account_name aws_account ++ ")".

(** Body of [for aws_account in config.aws.accounts] (lines 222-241). *)
Definition implicit_step (deleted_exclude_accounts_str : string)
    (st : scope) (aws_account : AWSAccount) : result scope :=
  found <- re_search (account_regex aws_account) deleted_exclude_accounts_str ;;
  if found then Ok st
  else Ok (mark_for_deletion (account_regex aws_account) st).

(** Body of [for account in main_template.included_accounts] (lines 256-272). *)
Definition explicit_step (deleted_exclude_accounts_str : string)
    (st : scope) (account : string) : result scope :=
  found <- re_search account deleted_exclude_accounts_str ;;
  if found then Ok st
  else Ok (mark_for_deletion account st).

(** Lines 208-272: the pass over accounts dropped from [included_accounts].
    [deleted_exclude_accounts] is the copy of the current
    [included_accounts] taken on line 204. *)
Definition shrink_pass (config : Config) (main_template : Template)
    (deleted_exclude_accounts : list string) (st : scope) : result scope :=
  let deleted_exclude_accounts_str := join newline_str deleted_exclude_accounts in
  if negb (contains "*" deleted_exclude_accounts) then
    if contains "*" (included_accounts main_template) then
      for_each (implicit_step deleted_exclude_accounts_str)
               (aws_accounts config) st
    else
      for_each (explicit_step deleted_exclude_accounts_str)
               (included_accounts main_template) st
  else Ok st.

(** Python truthiness of [main_template_excluded_accounts_str], which is
    [None] when the baseline list is empty. *)
Definition main_template_excluded_accounts_str (main_template : Template)
  : option string :=
  match excluded_accounts main_template with
  | [] => None
  | l => Some (join newline_str l)
  end.

Definition truthy (s : option string) : bool :=
  match s with
  | None => false
  | Some EmptyString => false
  | Some _ => true
  end.

(** [main_template_excluded_accounts_str and re.search(account, ...)]:
    the search runs only when the left operand is truthy. *)
Definition already_excluded (main_template : Template) (account : string)
  : result bool :=
  match main_template_excluded_accounts_str main_template with
  | Some s => if truthy (Some s) then re_search account s else Ok false
  | None => Ok false
  end.

(** [re.search(account, main_template_included_accounts_str)
     or "*" in main_template.included_accounts] *)
Definition previously_included (main_template : Template) (account : string)
  : result bool :=
  found <- re_search account
             (join newline_str (included_accounts main_template)) ;;
  Ok (found || contains "*" (included_accounts main_template)).

(** Body of [for account in template.excluded_accounts] (lines 293-322);
    the second component is [template_excluded_accounts]. *)
Definition excluded_step (main_template : Template)
    (acc : scope * list string) (account : string)
  : result (scope * list string) :=
  let '(st, template_excluded_accounts) := acc in
  already <- already_excluded main_template account ;;
  if already then Ok (st, template_excluded_accounts ++ [account])
  else
    live <- previously_included main_template account ;;
    if live then Ok (mark_for_deletion account st, template_excluded_accounts)
    else Ok (st, template_excluded_accounts ++ [account]).

(** Lines 274-324. *)
Definition excluded_pass (main_template : Template) (st : scope) : result scope :=
  '(st', template_excluded_accounts) <-
     for_each (excluded_step main_template)
              (excluded_accounts (template st)) (st, []) ;;
  Ok (mkScope (deleted_included_accounts st')
              (set_excluded_accounts (template st') template_excluded_accounts)).

(** The directive built on lines 327-331. *)
Definition deleted_obj (deleted_included_accounts deleted_exclude_accounts : list string)
  : Deleted :=
  mkDeleted true deleted_included_accounts
            (filter (fun ea => negb (String.eqb ea "*")) deleted_exclude_accounts).

(** Lines 326-335. *)
Definition attach_directive (deleted_exclude_accounts : list string) (st : scope)
  : Template :=
  match deleted_included_accounts st with
  | [] => template st
  | _ :: _ =>
      if deleted_is_true (template st) then template st
      else
        let obj := deleted_obj (deleted_included_accounts st)
                               deleted_exclude_accounts in
        match deleted (template st) with
        | DeletedBool _ => set_deleted (template st) (DeletedList [obj])
        | DeletedList l => set_deleted (template st) (DeletedList (l ++ [obj]))
        end
  end.

(** Lines 202-324: both passes, from the empty accumulator. *)
Definition accumulate (config : Config) (main_template template : Template)
  : result scope :=
  let deleted_exclude_accounts := included_accounts template in
  st <- shrink_pass config main_template deleted_exclude_accounts
          (mkScope [] template) ;;
  excluded_pass main_template st.

(** Lines 202-337 for one pair of parsed records. *)
Definition reconcile (config : Config) (main_template template : Template)
  : result Template :=
  st <- accumulate config main_template template ;;
  Ok (attach_directive (included_accounts template) st).

(** ** The collaborators: document parsing, template registry, working tree *)

(** [git_diff.content] wrapped in [StringIO]: [StringIO(None)] is the empty
    stream. *)
Definition content_text (c : option string) : string :=
  match c with
  | Some text => text
  | None => ""
  end.

Inductive ChangeType : Type := ChangeA | ChangeD | ChangeM.

Definition ChangeType_eqb (a b : ChangeType) : bool :=
  match a, b with
  | ChangeA, ChangeA | ChangeD, ChangeD | ChangeM, ChangeM => true
  | _, _ => false
  end.

(** An entry of the diff index: [a_blob] is the pre-image content
    ([a_blob.data_stream.read().decode("utf-8")]), absent for an added
    file. *)
Record Diff : Type := mkDiff {
  change_type : ChangeType;
  a_path : string;
  b_path : string;
  a_blob : option string
}.

Inductive GitObject : Type :=
| CommitObj (sha : string)
| TreeObj (sha : string).

(** What [retrieve_git_changes] reads of [git.Repo]. *)
Record Repo : Type := mkRepo {
  is_dirty : bool;
  remotes : list string;
  heads : list string;                              (* branch names *)
  commit : string -> option string;                 (* repo.commit(rev) *)
  head_commit_tree : string;                        (* repo.head.commit.tree *)
  diff : string -> GitObject -> list Diff           (* from_sha_obj.diff(to) *)
}.

Inductive event : Type :=
| LogError (msg : string) (file_path : string)
| Fetch (remote : string).

Record Files : Type := mkFiles {
  new_files : list GitDiff;
  deleted_files : list GitDiff;
  modified_files : list GitDiff
}.

(** Lines 28-34. *)
Definition main_or_master (repo : Repo) : result string :=
  if existsb (fun name => String.eqb name "main") (heads repo) then Ok "main"
  else if existsb (fun name => String.eqb name "master") (heads repo)
       then Ok "master"
  else Raise ValueError.

Definition dirty_message : string :=
  "Template git repo is dirty, and `allow_dirty` is not enabled. Refusing to proceed".

(** The collaborators of [iambic/core/git.py]: the YAML parser, the template
    registry, [DeepDiff], the management tag, the working tree and the
    repository. *)
Record Collaborators : Type := mkCollaborators {
  (** The parsed YAML document and [yaml.load]. *)
  Doc : Type;
  yaml_load : string -> result Doc;
  (** [template_dict["template_type"]] *)
  doc_template_type : Doc -> result string;
  (** [TEMPLATE_TYPE_MAP] and the constructor call
      [template_cls(file_path=..., **template_dict)]. *)
  Cls : Type;
  TEMPLATE_TYPE_MAP : string -> option Cls;
  construct : Cls -> string -> Doc -> result Template;
  (** Truthiness of
      [DeepDiff(d1, d2, ignore_order=True, report_repetition=True)]:
      [true] when the documents differ. *)
  DeepDiff : Doc -> Doc -> bool;
  (** [re.search(NOQ_TEMPLATE_REGEX, text)]: the management tag. *)
  noq_template : string -> bool;
  (** The working tree: [open(path).read()]. *)
  read_file : string -> option string;
  (** [Repo(repo_dir)] *)
  open_repo : string -> Repo
}.
Arguments construct c : clear implicits.
Arguments doc_template_type c : clear implicits.
Arguments TEMPLATE_TYPE_MAP c : clear implicits.
Arguments DeepDiff c : clear implicits.
Arguments yaml_load c : clear implicits.

(** ** Classification of a newly excluded matcher, as lines 293-322 decide
    it *)

(** The search result for a pattern that compiles. *)
Definition found (pattern s : string) : bool :=
  match re_search pattern s with
  | Ok b => b
  | Raise _ => false
  end.

Definition compiles (pattern : string) : bool :=
  match Re.compile pattern with
  | Ok _ => true
  | Raise _ => false
  end.

(** The test on lines 294-296, for a pattern that compiles: the baseline's
    newline-joined [excluded_accounts] is not empty and [re.search] finds
    the matcher in it.  This is a search, not membership in the list. *)
Definition baseline_excludes (main_template : Template) (account : string) : bool :=
  let s := join newline_str (excluded_accounts main_template) in
  negb (String.eqb s "") && found account s.

(** The test on lines 305-306, for a pattern that compiles: [re.search]
    finds the matcher in the baseline's newline-joined [included_accounts],
    or the baseline holds the wildcard. *)
Definition baseline_live (main_template : Template) (account : string) : bool :=
  found account (join newline_str (included_accounts main_template))
  || contains "*" (included_accounts main_template).

Inductive placement : Type :=
| AlreadyExcluded     (* stays excluded, no deletion *)
| MovedToDirective    (* marked for deletion, dropped from excluded_accounts *)
| OrdinaryExclusion.  (* stays excluded as a new exclusion *)

Definition classify_excluded (main_template : Template) (account : string)
  : placement :=
  if baseline_excludes main_template account then AlreadyExcluded
  else if baseline_live main_template account then MovedToDirective
  else OrdinaryExclusion.

Definition moved (main_template : Template) (account : string) : bool :=
  match classify_excluded main_template account with
  | MovedToDirective => true
  | _ => false
  end.

(** Following the specification's words, for comparison with the code:
    the matcher "was already present in [baseline.excluded_accounts]", that
    is, it is an element of that list. *)
Definition spec_already_excluded (main_template : Template) (account : string)
  : bool :=
  contains account (excluded_accounts main_template).

(** The three-way classification with the specification's first test. *)
Definition spec_classify_excluded (main_template : Template) (account : string)
  : placement :=
  if spec_already_excluded main_template account then AlreadyExcluded
  else if baseline_live main_template account then MovedToDirective
  else OrdinaryExclusion.

(** Marking a list of matchers, one after the other. *)
Definition mark_all (l : list string) (st : scope) : scope :=
  mkScope (deleted_included_accounts st ++ l)
          (set_included_accounts (template st)
             (included_accounts (template st) ++ l)).

(** The directives a [deleted] field already holds. *)
Definition directives (d : deleted_field) : list Deleted :=
  match d with
  | DeletedBool _ => []
  | DeletedList l => l
  end.

Definition not_wildcard (a : string) : bool := negb (String.eqb a "*").

(** ** The patterns one reconciliation hands to [re.search] *)

(** The shrink pass searches for the registry patterns (wildcard baseline) or
    for the baseline matchers (explicit baseline), unless the current record
    holds the wildcard; the newly-excluded pass searches for every current
    [excluded_accounts] matcher. *)
Definition consulted_patterns (config : Config) (main_template t : Template)
  : list string :=
  (if contains "*" (included_accounts t) then []
   else if contains "*" (included_accounts main_template)
        then map account_regex (aws_accounts config)
        else included_accounts main_template)
  ++ excluded_accounts t.

(** The matchers the shrink pass marks, for patterns that compile: the
    registry patterns, or the baseline matchers, that are not found in the
    newline-joined current [included_accounts]. *)
Definition shrink_marks (config : Config) (main_template t : Template)
  : list string :=
  let current := join newline_str (included_accounts t) in
  if contains "*" (included_accounts t) then []
  else if contains "*" (included_accounts main_template)
       then filter (fun p => negb (found p current))
                   (map account_regex (aws_accounts config))
       else filter (fun p => negb (found p current))
                   (included_accounts main_template).

(** Everything one reconciliation marks: the shrink pass first, then the
    newly-excluded pass. *)
Definition all_marks (config : Config) (main_template t : Template)
  : list string :=
  shrink_marks config main_template t
  ++ filter (moved main_template) (excluded_accounts t).

(** ** Sample inputs *)

(** The registry of the docstring on lines 210-221: prod, staging and dev. *)
Definition registry : Config :=
  mkConfig [mkAWSAccount "111111111111" "prod";
            mkAWSAccount "222222222222" "staging";
            mkAWSAccount "333333333333" "dev"].

Definition role (incl excl : list string) (d : deleted_field) : Template :=
  mkTemplate "NOQ::AWS::IAM::Role" "/repo/roles/engineering.yaml"
             "engineering" incl excl d.

(** A small instance of the collaborators: a document is its own text, its
    identity is that text, and it is deleted when it says so. *)
Definition sample_yaml_load (text : string) : result string := Ok text.

Definition sample_doc_template_type (doc : string) : result string :=
  if found "NOQ::Google::Group" doc then Ok "NOQ::Google::Group"
  else Raise KeyError.

Definition sample_TEMPLATE_TYPE_MAP (ty : string) : option unit :=
  if String.eqb ty "NOQ::Google::Group" then Some tt else None.

Definition sample_construct (cls : unit) (file_path doc : string)
  : result Template :=
  Ok (mkTemplate "NOQ::Google::Group" file_path doc ["*"] []
                 (DeletedBool (found "deleted: true" doc))).

Definition sample_DeepDiff (d1 d2 : string) : bool := negb (String.eqb d1 d2).

Definition sample_noq_template (text : string) : bool := found "NOQ::" text.

Definition platform_doc : string :=
  "template_type: NOQ::Google::Group email: platform@example.com".
Definition infra_doc : string :=
  "template_type: NOQ::Google::Group email: infra@example.com".
Definition retired_doc : string :=
  "template_type: NOQ::Google::Group email: retired@example.com deleted: true".

Definition sample_read_file (p : string) : option string :=
  if String.eqb p "/repo/groups/platform.yaml" then Some platform_doc else None.

(** A clean repository with a [main] branch, one with only [master], and a
    dirty one. *)
Definition main_repo : Repo :=
  mkRepo false ["origin"] ["main"; "feature"]
         (fun rev => if String.eqb rev "origin/main" then Some "c0ffee" else None)
         "7ree" (fun _ _ => []).

Definition master_repo : Repo :=
  mkRepo false ["origin"] ["master"; "feature"]
         (fun rev => if String.eqb rev "origin/master" then Some "c0ffee" else None)
         "7ree" (fun _ _ => []).

Definition dirty_repo : Repo :=
  mkRepo true ["origin"] ["main"]
         (fun rev => if String.eqb rev "origin/main" then Some "c0ffee" else None)
         "7ree" (fun _ _ => []).

Definition sample_open_repo (repo_dir : string) : Repo :=
  if String.eqb repo_dir "/legacy" then master_repo
  else if String.eqb repo_dir "/wip" then dirty_repo
  else main_repo.

(** A rename of [groups/infra.yaml] to [groups/platform.yaml] with the given
    pre-image. *)
Definition renamed (pre : string) : Diff :=
  mkDiff ChangeM "groups/infra.yaml" "groups/platform.yaml" (Some pre).

Definition sample_world : Collaborators :=
  mkCollaborators sample_yaml_load sample_doc_template_type
                  sample_TEMPLATE_TYPE_MAP sample_construct sample_DeepDiff
                  sample_noq_template sample_read_file sample_open_repo.

(** A registry whose [resource_id] is the group's address when the document
    names [platform@example.com], and a revision of [platform_doc] that keeps
    that address. *)
Definition sample_construct_by_email (cls : unit) (file_path doc : string)
  : result Template :=
  Ok (mkTemplate "NOQ::Google::Group" file_path
                 (if found "platform@example.com" doc
                  then "platform@example.com" else doc)
                 ["*"] [] (DeletedBool false)).

Definition sample_world_by_email : Collaborators :=
  mkCollaborators sample_yaml_load sample_doc_template_type
                  sample_TEMPLATE_TYPE_MAP sample_construct_by_email
                  sample_DeepDiff sample_noq_template sample_read_file
                  sample_open_repo.

(** The same working tree reached through the relative directory [rel]. *)
Definition sample_read_file_rel (p : string) : option string :=
  if String.eqb p "rel/groups/platform.yaml" then Some platform_doc else None.

Definition sample_world_rel : Collaborators :=
  mkCollaborators sample_yaml_load sample_doc_template_type
                  sample_TEMPLATE_TYPE_MAP sample_construct sample_DeepDiff
                  sample_noq_template sample_read_file_rel sample_open_repo.

Definition platform_doc_v0 : string :=
  "template_type: NOQ::Google::Group email: platform@example.com description: old".

Definition unknown_type_doc : string :=
  "template_type: NOQ::Unknown email: infra@example.com".

(** ** Cloning the template repositories (lines 37-55) *)

(** An entry of [config.secrets["git"]["repositories"]]. *)
Record Repository : Type := mkRepository {
  repo_name : string;       (* repository["name"] *)
  git_uri : string          (* repository["uri"] *)
}.

(** What [clone_git_repos] asks of git, in order. *)
Inductive git_action : Type :=
| CloneFrom (uri repo_path : string)
| RemoteFetch (repo_path remote : string)
| GitPull (repo_path : string).

(** The git client: [Repo.clone_from] answers with a repository or with the
    [stderr] of a [GitCommandError] and changes the disk; [Repo(repo_path)]
    opens what is on disk; fetching the remotes and pulling changes the
    disk. *)
Record GitClient : Type := mkGitClient {
  Disk : Type;
  clone_from : Disk -> string -> string -> Disk * (Repo + string);
  repo_at : Disk -> string -> Repo;
  after_pull : Disk -> string -> Disk
}.

(** [repos[repo_name] = repo] on a dict kept in insertion order. *)
Fixpoint dict_set (repos : list (string * Repo)) (k : string) (v : Repo)
  : list (string * Repo) :=
  match repos with
  | [] => [(k, v)]
  | (k', v') :: rest =>
      if String.eqb k' k then (k', v) :: rest
      else (k', v') :: dict_set rest k v
  end.

Definition already_exists : string :=
  "already exists and is not an empty directory".

Record clone_state (c : GitClient) : Type := mkCloneState {
  disk : Disk c;
  actions : list git_action;
  repos : list (string * Repo)
}.

(** The call either returns [repos] or re-raises a [GitCommandError]. *)
Inductive clone_outcome (c : GitClient) : Type :=
| Returned (st : clone_state c)
| GitCommandError (st : clone_state c) (stderr : string).

(** Body of the loop (lines 41-54). *)
Definition clone_step (c : GitClient) (repo_base_path : string)
    (st : clone_state c) (repository : Repository) : clone_outcome c :=
  let repo_path := os_path_join repo_base_path (repo_name repository) in
  let '(d, answer) := clone_from c (disk st) (git_uri repository) repo_path in
  let tried := actions st ++ [CloneFrom (git_uri repository) repo_path] in
  match answer with
  | inl repo =>
      Returned (mkCloneState c d tried
                  (dict_set (repos st) (repo_name repository) repo))
  | inr stderr =>
      if negb (occurs already_exists stderr) then
        GitCommandError (mkCloneState c d tried (repos st)) stderr
      else
        let repo := repo_at c d repo_path in
        Returned
          (mkCloneState c (after_pull c d repo_path)
             (tried ++ map (RemoteFetch repo_path) (remotes repo)
                    ++ [GitPull repo_path])
             (dict_set (repos st) (repo_name repository) repo))
  end.

Fixpoint clone_loop (c : GitClient) (repo_base_path : string)
    (repositories : list Repository) (st : clone_state c) : clone_outcome c :=
  match repositories with
  | [] => Returned st
  | repository :: rest =>
      match clone_step repo_base_path st repository with
      | Returned st' => clone_loop repo_base_path rest st'
      | GitCommandError st' stderr => GitCommandError st' stderr
      end
  end.

(** Lines 37-55; [repositories] is
    [config.secrets.get("git", {}).get("repositories", [])]. *)
Definition clone_git_repos (c : GitClient) (d : Disk c)
    (repositories : list Repository) (repo_base_path : string)
  : clone_outcome c :=
  clone_loop repo_base_path repositories (mkCloneState c d [] []).

(** A disk is the list of paths that hold a checkout; cloning into one of
    them is refused, cloning from an [ssh:] address is denied. *)
Definition sample_git : GitClient :=
  mkGitClient
    (fun (d : list string) uri p =>
       if contains p d
       then (d, inr ("fatal: destination path '" ++ p
                       ++ "' already exists and is not an empty directory.")%string)
       else if occurs "ssh:" uri
            then (d, inr "fatal: Could not read from remote repository.")
            else (p :: d, inl main_repo))
    (fun _ _ => main_repo)
    (fun d _ => d).

(** ** Google groups ([iambic/google/group/models.py]) *)

(** The enumerations of [iambic.google.models] that a group member uses:
    their members named in this file, and the conversion of an API string,
    [None] standing for the [ValueError] of an unknown value. *)
Record GoogleEnums : Type := mkGoogleEnums {
  Role : Type;
  MemberType : Type;
  Status : Type;
  Subscription : Type;
  Role_MEMBER : Role;                       (* GroupMemberRole.MEMBER *)
  MemberType_USER : MemberType;             (* GroupMemberType.USER *)
  Status_ACTIVE : Status;                   (* GroupMemberStatus.ACTIVE *)
  Subscription_EACH_EMAIL : Subscription;   (* GroupMemberSubscription.EACH_EMAIL *)
  GroupMemberRole : string -> option Role;
  GroupMemberType : string -> option MemberType;
  GroupMemberStatus : string -> option Status
}.

(** An entry of the members listing returned by the directory API. *)
Record MemberDict : Type := mkMemberDict {
  m_email : string;
  m_role : string;
  m_type : string;
  m_status : string
}.

(** The [group] dict handed to [get_group_template]. *)
Record GroupDict : Type := mkGroupDict {
  g_email : string;
  g_name : string;
  g_description : string
}.

(** [s.split("@")[0]]: the text before the first [@], all of [s] when there
    is none. *)
Fixpoint before_at (s : string) : string :=
  match s with
  | EmptyString => EmptyString
  | String c s' => if Ascii.eqb c "@" then EmptyString else String c (before_at s')
  end.

Section GoogleGroup.

Variable E : GoogleEnums.

(** Lines 35-52 (the fields declared in this file). *)
Record GroupMember : Type := mkGroupMember {
  member_email : string;
  member_expand : bool;
  member_role : Role E;
  member_type : MemberType E;
  member_status : Status E;
  member_subscription : Subscription E
}.

(** Lines 55-68 (the fields declared in this file, and [file_path]). *)
Record GroupTemplate : Type := mkGroupTemplate {
  group_file_path : string;
  group_name : string;
  group_domain : string;
  group_email : string;
  group_description : string;
  welcome_message : option string;
  members : list GroupMember;
  who_can_invite : string;
  who_can_join : string;
  who_can_post_message : string;
  who_can_view_group : string;
  who_can_view_membership : string;
  read_only : bool
}.

(** The dict of [apply_resource_dict] (lines 76-84). *)
Record GroupResource : Type := mkGroupResource {
  res_name : string;
  res_email : string;
  res_description : string;
  res_members : list GroupMember
}.

Definition apply_resource_dict (self : GroupTemplate) : GroupResource :=
  mkGroupResource (group_name self) (group_email self)
                  (group_description self) (members self).

(** [ValueError] of an enumeration call. *)
Definition enum_of {A : Type} (o : option A) : result A :=
  match o with
  | Some a => Ok a
  | None => Raise ValueError
  end.

(** One element of the comprehension on lines 224-232; the keyword
    arguments are evaluated in the order written. *)
Definition group_member_of (member : MemberDict) : result GroupMember :=
  r <- enum_of (GroupMemberRole E (m_role member)) ;;
  t <- enum_of (GroupMemberType E (m_type member)) ;;
  s <- enum_of (GroupMemberStatus E (m_status member)) ;;
  Ok (mkGroupMember (m_email member) false r t s (Subscription_EACH_EMAIL E)).

Fixpoint group_members_of (l : list MemberDict) : result (list GroupMember) :=
  match l with
  | [] => Ok []
  | member :: rest =>
      m <- group_member_of member ;;
      ms <- group_members_of rest ;;
      Ok (m :: ms)
  end.

(** Lines 221-241.  [list_members] is
    [service.members().list(groupKey=...).execute()] followed by
    [.get("members")]: [None] when the answer is empty or has no members. *)
Definition get_group_template (list_members : string -> option (list MemberDict))
    (group : GroupDict) (domain : string) : result GroupTemplate :=
  let member_res :=
    match list_members (g_email group) with
    | Some l => l
    | None => []
    end in
  ms <- group_members_of member_res ;;
  let file_name := (before_at (g_email group) ++ ".yaml")%string in
  Ok (mkGroupTemplate
        ("google_groups/" ++ domain ++ "/" ++ file_name)%string
        (g_name group) domain (g_email group) (g_description group) None ms
        "ALL_MANAGERS_CAN_INVITE" "CAN_REQUEST_TO_JOIN" "NONE_CAN_POST"
        "ALL_MANAGERS_CAN_VIEW" "ALL_MANAGERS_CAN_VIEW" false).

(** [AccountChangeDetails] as [_apply_to_account] fills it. *)
Record AccountChangeDetails (ProposedChange : Type) : Type :=
  mkAccountChangeDetails {
  account : string;
  acd_resource_id : string;
  current_value : option GroupTemplate;
  new_value : GroupResource;
  proposed_changes : list ProposedChange
}.

(** The collaborators of [_apply_to_account]: the directory ([get_group],
    [create_group]), the five update coroutines of
    [iambic.google.group.utils], each taken by the proposed changes it
    returns for its arguments and the execute flag, and the [CREATE] change
    of [iambic.core.models]. *)
Record GroupApi : Type := mkGroupApi {
  Directory : Type;
  GoogleProject : Type;
  ProposedChange : Type;
  (** [ProposedChange(change_type=CREATE, resource_id=..., resource_type=...)] *)
  create_change : string -> string -> ProposedChange;
  get_group : Directory -> string -> string -> GoogleProject
              -> option GroupTemplate;
  create_group : Directory -> string -> string -> string -> string -> string
                 -> GoogleProject -> Directory;
  update_group_domain : string -> string -> bool -> result (list ProposedChange);
  update_group_email : string -> string -> string -> GoogleProject -> bool
                       -> result (list ProposedChange);
  update_group_name : string -> string -> string -> string -> GoogleProject
                      -> bool -> result (list ProposedChange);
  update_group_description : string -> string -> string -> string
                             -> GoogleProject -> bool
                             -> result (list ProposedChange);
  update_group_members : string -> list GroupMember -> list GroupMember
                         -> string -> GoogleProject -> bool
                         -> result (list ProposedChange)
}.

Variable api : GroupApi.

(** [GroupTemplate.resource_type] (lines 213-215). *)
Definition resource_type : string := "google:group".

Inductive directory_call : Type :=
| CreateGroup (id domain email name description : string).

(** [asyncio.gather] over the tasks: the results in the order of the tasks; when
    tasks raise, the exception of the first of them in that order. *)
Fixpoint gather {A : Type} (tasks : list (result A)) : result (list A) :=
  match tasks with
  | [] => Ok []
  | task :: rest => x <- task ;; xs <- gather rest ;; Ok (x :: xs)
  end.

(** [current_group.attr] on what [get_group] last returned. *)
Definition attributes_of (current_group : option GroupTemplate)
  : result GroupTemplate :=
  match current_group with
  | Some g => Ok g
  | None => Raise AttributeError
  end.

(** Lines 148-211: the five updates and the returned details. *)
Definition apply_updates (self : GroupTemplate)
    (google_project : GoogleProject api) (execute : bool)
    (current_group : option GroupTemplate)
    (change_details : AccountChangeDetails (ProposedChange api))
  : result (AccountChangeDetails (ProposedChange api)) :=
  g <- attributes_of current_group ;;
  changes_made <-
    gather
      [update_group_domain api (group_domain g) (group_domain self) execute;
       update_group_email api (group_email g) (group_email self)
         (group_domain self) google_project execute;
       update_group_name api (group_email self) (group_name g)
         (group_name self) (group_domain self) google_project execute;
       update_group_description api (group_email self) (group_description g)
         (group_description self) (group_domain self) google_project execute;
       update_group_members api (group_email self) (members g) (members self)
         (group_domain self) google_project execute] ;;
  Ok (if existsb (fun l => negb (Nat.eqb (length l) 0)) changes_made
      then mkAccountChangeDetails
             (account change_details) (acd_resource_id change_details)
             (current_value change_details) (new_value change_details)
             (proposed_changes change_details ++ concat changes_made)
      else change_details).

(** Lines 86-211.  The first component lists the calls that change the
    directory outside the update coroutines. *)
Definition _apply_to_account (self : GroupTemplate)
    (google_project : GoogleProject api) (execute : bool) (d : Directory api)
  : list directory_call * result (AccountChangeDetails (ProposedChange api)) :=
  let proposed_group := apply_resource_dict self in
  let current_group :=
    get_group api d (group_email self) (group_domain self) google_project in
  let change_details :=
    mkAccountChangeDetails (group_domain self) (group_email self)
                           current_group proposed_group [] in
  match current_group with
  | Some _ =>
      ([], apply_updates self google_project execute current_group change_details)
  | None =>
      let change_details :=
        mkAccountChangeDetails (group_domain self) (group_email self) None
          proposed_group [create_change api (group_email self) resource_type] in
      if negb execute then ([], Ok change_details)
      else
        let d' := create_group api d (group_email self) (group_domain self)
                    (group_email self) (group_name self)
                    (group_description self) google_project in
        let current_group :=
          get_group api d' (group_email self) (group_domain self)
                    google_project in
        ([CreateGroup (group_email self) (group_domain self) (group_email self)
                      (group_name self) (group_description self)],
         apply_updates self google_project execute current_group
           (mkAccountChangeDetails (group_domain self) (group_email self)
              current_group proposed_group
              [create_change api (group_email self) resource_type]))
  end.

End GoogleGroup.

(** Sample enumerations (every value a string) and a sample directory: the
    list of the groups that exist; an update proposes a change, named after
    the attribute, when the two values differ. *)
Definition one_of (values : list string) (s : string) : option string :=
  if contains s values then Some s else None.

Definition sample_enums : GoogleEnums :=
  mkGoogleEnums "MEMBER" "USER" "ACTIVE" "EACH_EMAIL"
                (one_of ["OWNER"; "MANAGER"; "MEMBER"])
                (one_of ["USER"; "GROUP"; "EXTERNAL"])
                (one_of ["ACTIVE"; "SUSPENDED"]).

Definition changed (attribute current proposed : string)
  : result (list string) :=
  if String.eqb current proposed then Ok [] else Ok [attribute].

Definition sample_api : GroupApi sample_enums :=
  mkGroupApi
    (fun id ty => ("create " ++ ty ++ " " ++ id)%string)
    (fun (d : list (GroupTemplate sample_enums)) email domain (_ : unit) =>
       find (fun g => String.eqb (group_email g) email) d)
    (fun d id domain email name description _ =>
       mkGroupTemplate ("google_groups/" ++ domain ++ "/" ++ before_at email
                          ++ ".yaml")%string
                       name domain email description None []
                       "ALL_MANAGERS_CAN_INVITE" "CAN_REQUEST_TO_JOIN"
                       "NONE_CAN_POST" "ALL_MANAGERS_CAN_VIEW"
                       "ALL_MANAGERS_CAN_VIEW" false :: d)
    (fun current proposed _ => changed "domain" current proposed)
    (fun current proposed _ _ _ => changed "email" current proposed)
    (fun _ current proposed _ _ _ => changed "name" current proposed)
    (fun _ current proposed _ _ _ => changed "description" current proposed)
    (fun _ current proposed _ _ _ =>
       if Nat.eqb (length current) (length proposed) then Ok []
       else Ok ["members"]).

Definition platform_group (description : string) : GroupTemplate sample_enums :=
  mkGroupTemplate "google_groups/example.com/platform.yaml" "Platform"
                  "example.com" "platform@example.com" description None []
                  "ALL_MANAGERS_CAN_INVITE" "CAN_REQUEST_TO_JOIN"
                  "NONE_CAN_POST" "ALL_MANAGERS_CAN_VIEW"
                  "ALL_MANAGERS_CAN_VIEW" false.

Definition sample_listing (email : string) : option (list MemberDict) :=
  if String.eqb email "platform@example.com"
  then Some [mkMemberDict "ada@example.com" "OWNER" "USER" "ACTIVE";
             mkMemberDict "bob@example.com" "MEMBER" "USER" "SUSPENDED"]
  else None.

Section Collaborators.

Variable w : Collaborators.

Local Abbreviation Doc := (Doc w).
Local Abbreviation Cls := (Cls w).
Local Abbreviation yaml_load := (yaml_load w).
Local Abbreviation doc_template_type := (doc_template_type w).
Local Abbreviation TEMPLATE_TYPE_MAP := (TEMPLATE_TYPE_MAP w).
Local Abbreviation construct := (construct w).
Local Abbreviation DeepDiff := (DeepDiff w).
Local Abbreviation noq_template := (noq_template w).
Local Abbreviation read_file := (read_file w).
Local Abbreviation open_repo := (open_repo w).

Definition open_file (p : string) : result string :=
  match read_file p with
  | Some text => Ok text
  | None => Raise FileNotFoundError
  end.

(** Modelled from the spec: [file_regex_search(path, NOQ_TEMPLATE_REGEX)] of
    [iambic.core.utils] reads the file from the working tree and searches
    its text for the management tag. *)
Definition file_regex_search (p : string) : result bool :=
  text <- open_file p ;; Ok (noq_template text).

Definition lookup_cls (doc : Doc) : result Cls :=
  ty <- doc_template_type doc ;;
  match TEMPLATE_TYPE_MAP ty with
  | Some cls => Ok cls
  | None => Raise KeyError
  end.

Definition read_blob (d : Diff) : result string :=
  match a_blob d with
  | Some text => Ok text
  | None => Raise AttributeError
  end.

(** *** Deletion materializer (lines 164-181) *)

Definition deleted_file_step (templates : list Template) (git_diff : GitDiff)
  : result (list Template) :=
  template_dict <- yaml_load (content_text (content git_diff)) ;;
  template_cls <- lookup_cls template_dict ;;
  template <- construct template_cls (path git_diff) template_dict ;;
  if deleted_is_true template then Ok templates
  else Ok (templates ++ [set_deleted template (DeletedBool true)]).

Definition create_templates_for_deleted_files (deleted_files : list GitDiff)
  : result (list Template) :=
  for_each deleted_file_step deleted_files [].

(** *** Scope reconciler (lines 184-339) *)

Definition modified_file_step (config : Config) (templates : list Template)
    (git_diff : GitDiff) : result (list Template) :=
  main_template_dict <- yaml_load (content_text (content git_diff)) ;;
  template_cls <- lookup_cls main_template_dict ;;
  main_template <- construct template_cls (path git_diff) main_template_dict ;;
  text <- open_file (path git_diff) ;;
  template_dict <- yaml_load text ;;
  template <- construct template_cls (path git_diff) template_dict ;;
  template' <- reconcile config main_template template ;;
  Ok (templates ++ [template']).

Definition create_templates_for_modified_files (config : Config)
    (modified_files : list GitDiff) : result (list Template) :=
  for_each (modified_file_step config) modified_files [].

(** *** Revision differencer (lines 58-161) *)

Definition iter_change_type (ty : ChangeType) (diff_index : list Diff) : list Diff :=
  filter (fun d => ChangeType_eqb (change_type d) ty) diff_index.

(** Lines 100-105. *)
Definition new_file_step (repo_dir : string) (files : Files) (file_obj : Diff)
  : result Files :=
  let path := os_path_join repo_dir (b_path file_obj) in
  managed <- (if endswith path ".yaml" then file_regex_search path else Ok false) ;;
  if managed then
    Ok (mkFiles (new_files files ++ [mkGitDiff (os_path_join repo_dir path) None false])
                (deleted_files files) (modified_files files))
  else Ok files.

(** Lines 108-116. *)
Definition deleted_step (repo_dir : string) (files : Files) (file_obj : Diff)
  : result Files :=
  let path := b_path file_obj in
  if endswith path ".yaml" then
    text <- read_blob file_obj ;;
    let file := mkGitDiff (os_path_join repo_dir path) (Some text) true in
    if noq_template text then
      Ok (mkFiles (new_files files) (deleted_files files ++ [file])
                  (modified_files files))
    else Ok files
  else Ok files.

(** How one iteration of the loop over modified files ends. *)
Inductive outcome : Type :=
| Skip                                   (* continue on line 141 *)
| Split (deleted_file new_file : GitDiff) (* lines 151-153 *)
| FallThrough.                           (* on to line 155 *)

(** Lines 123-153, entered with a managed [.yaml] post-image. *)
Definition resolve_rename (repo_dir path : string) (file_obj : Diff)
  : result outcome :=
  let main_path := os_path_join repo_dir (a_path file_obj) in
  if negb (String.eqb main_path path) then
    text <- read_blob file_obj ;;
    let deleted_file := mkGitDiff (os_path_join repo_dir main_path) (Some text) true in
    if noq_template text then
      current <- open_file path ;;
      template_dict <- yaml_load current ;;
      main_template_dict <- yaml_load text ;;
      if negb (DeepDiff template_dict main_template_dict) then Ok Skip
      else
        template_cls <- lookup_cls main_template_dict ;;
        main_template <-
          construct template_cls (git_diff_path deleted_file) main_template_dict ;;
        template <- construct template_cls path template_dict ;;
        if negb (String.eqb (resource_id main_template) (resource_id template))
        then Ok (Split deleted_file (mkGitDiff path None false))
        else Ok FallThrough
    else Ok FallThrough
  else Ok FallThrough.

(** Lines 119-159. *)
Definition modified_step (repo_dir : string) (files : Files) (file_obj : Diff)
  : result Files :=
  let path := os_path_join repo_dir (b_path file_obj) in
  managed <- (if endswith path ".yaml" then file_regex_search path else Ok false) ;;
  if managed then
    o <- resolve_rename repo_dir path file_obj ;;
    match o with
    | Skip => Ok files
    | Split deleted_file new_file =>
        Ok (mkFiles (new_files files ++ [new_file])
                    (deleted_files files ++ [deleted_file])
                    (modified_files files))
    | FallThrough =>
        text <- read_blob file_obj ;;
        Ok (mkFiles (new_files files) (deleted_files files)
                    (modified_files files
                       ++ [mkGitDiff (os_path_join repo_dir path) (Some text) false]))
    end
  else Ok files.

(** Lines 92-161: the three loops over the diff index. *)
Definition collect (repo_dir : string) (diff_index : list Diff) : result Files :=
  files <- for_each (new_file_step repo_dir)
             (iter_change_type ChangeA diff_index) (mkFiles [] [] []) ;;
  files <- for_each (deleted_step repo_dir)
             (iter_change_type ChangeD diff_index) files ;;
  for_each (modified_step repo_dir) (iter_change_type ChangeM diff_index) files.

Definition resolve_commit (repo : Repo) (rev : string) : result string :=
  match commit repo rev with
  | Some sha => Ok sha
  | None => Raise BadName
  end.

(** Lines 58-161.  The first component is what the call logs and fetches,
    in order; the second is its return value or the exception raised. *)
Definition retrieve_git_changes (repo_dir : string) (allow_dirty : bool)
    (from_sha to_sha : option string) : list event * result Files :=
  let repo := open_repo repo_dir in
  let logged :=
    if is_dirty repo then [LogError dirty_message repo_dir] else [] in
  let fetched :=
    match from_sha with
    | None => map Fetch (remotes repo)
    | Some _ => []
    end in
  (logged ++ fetched,
   from_sha_obj <-
     match from_sha with
     | None => resolve_commit repo "origin/main"
     | Some rev => resolve_commit repo rev
     end ;;
   to_sha_obj <-
     match to_sha with
     | None => Ok (TreeObj (head_commit_tree repo))
     | Some rev => sha <- resolve_commit repo rev ;; Ok (CommitObj sha)
     end ;;
   collect repo_dir (diff repo from_sha_obj to_sha_obj)).


(** The record a deleted Change Record parses to (lines 172-174). *)
Definition parse_deleted (git_diff : GitDiff) : result Template :=
  template_dict <- yaml_load (content_text (content git_diff)) ;;
  template_cls <- lookup_cls template_dict ;;
  construct template_cls (path git_diff) template_dict.

(** [template.deleted = True] *)
Definition force_deleted (t : Template) : Template :=
  set_deleted t (DeletedBool true).

(** What one modified Change Record is turned into (lines 195-337): both
    revisions parsed with the class of the baseline's [template_type], then
    reconciled. *)
Definition reconcile_file (config : Config) (git_diff : GitDiff)
  : result Template :=
  main_template_dict <- yaml_load (content_text (content git_diff)) ;;
  template_cls <- lookup_cls main_template_dict ;;
  main_template <- construct template_cls (path git_diff) main_template_dict ;;
  text <- open_file (path git_diff) ;;
  template_dict <- yaml_load text ;;
  template <- construct template_cls (path git_diff) template_dict ;;
  reconcile config main_template template.

(** * Properties *)

(** ** Loops *)

Lemma for_each_app {A S : Type} (body : S -> A -> result S) (l1 l2 : list A) (s : S) :
  for_each body (l1 ++ l2) s = (s' <- for_each body l1 s ;; for_each body l2 s').
Proof.
  revert s; induction l1 as [|a l1 IH]; intro s; simpl; [reflexivity|].
  destruct (body s a) as [s'|e]; simpl; [apply IH | reflexivity].
Qed.

Lemma for_each_invariant {A S : Type} (body : S -> A -> result S) (P : S -> Prop) :
  (forall s a s', body s a = Ok s' -> P s -> P s') ->
  forall l s s', for_each body l s = Ok s' -> P s -> P s'.
Proof.
  intros Hstep l; induction l as [|a l IH]; intros s s' Hrun Hs; simpl in Hrun.
  - injection Hrun as <-; exact Hs.
  - destruct (body s a) as [s1|e] eqn:Hb; simpl in Hrun; [|discriminate].
    eapply IH; eauto.
Qed.


Lemma for_each_ok_iff {A S : Type} (body : S -> A -> result S) (P : A -> Prop) :
  (forall s a, (exists s', body s a = Ok s') <-> P a) ->
  forall l s, (exists s', for_each body l s = Ok s') <-> Forall P l.
Proof.
  intros Hbody l. induction l as [|a l IH]; intro s; simpl.
  - split; [constructor | eauto].
  - split.
    + intros [s' H]. destruct (body s a) as [s1|e] eqn:Hb; simpl in H;
        [|discriminate].
      constructor; [apply (Hbody s a); eauto | apply (IH s1); eauto].
    + intro H. inversion H as [|? ? Ha Hl]; subst.
      apply (Hbody s a) in Ha as [s1 Hs1]. rewrite Hs1; simpl.
      apply IH; assumption.
Qed.

(** ** Deletion materializer *)

Lemma deleted_file_step_parsed templates git_diff t :
  parse_deleted git_diff = Ok t ->
  deleted_file_step templates git_diff
  = Ok (if deleted_is_true t then templates else templates ++ [force_deleted t]).
Proof.
  unfold parse_deleted, deleted_file_step.
  destruct (yaml_load _) as [doc|e]; simpl; [|discriminate].
  destruct (lookup_cls doc) as [cls|e]; simpl; [|discriminate].
  intros ->; simpl. destruct (deleted_is_true t); reflexivity.
Qed.

Lemma deleted_loop_parsed deleted_files ts :
  Forall2 (fun g t => parse_deleted g = Ok t) deleted_files ts ->
  forall templates,
    for_each deleted_file_step deleted_files templates
    = Ok (templates
            ++ map force_deleted (filter (fun t => negb (deleted_is_true t)) ts)).
Proof.
  induction 1 as [|g t gs ts Hg Hgs IH]; intro templates; simpl.
  - rewrite app_nil_r; reflexivity.
  - rewrite (deleted_file_step_parsed _ _ Hg); simpl.
    destruct (deleted_is_true t); simpl; rewrite IH; [reflexivity|].
    rewrite <- app_assoc; reflexivity.
Qed.

(** C9: over deleted Change Records that parse, a record already
    [deleted = True] yields no output and every other record yields exactly
    one output, in order, with [deleted] forced to [True] and
    [included_accounts] and [excluded_accounts] as parsed. *)
Theorem materialize_deleted_skips_already_deleted deleted_files ts :
  Forall2 (fun g t => parse_deleted g = Ok t) deleted_files ts ->
  create_templates_for_deleted_files deleted_files
  = Ok (map force_deleted (filter (fun t => negb (deleted_is_true t)) ts)) /\
  (forall t, deleted (force_deleted t) = DeletedBool true /\
             included_accounts (force_deleted t) = included_accounts t /\
             excluded_accounts (force_deleted t) = excluded_accounts t).
Proof.
  intro H. split; [|intro t; repeat split].
  unfold create_templates_for_deleted_files.
  rewrite (deleted_loop_parsed H). reflexivity.
Qed.

(** ** Scope reconciler: one modified Change Record *)

(** When both revisions parse, the loop body appends the reconciled current
    record. *)
Lemma modified_file_step_reconciles config templates git_diff
    main_template_dict template_cls main_template text template_dict t t' :
  yaml_load (content_text (content git_diff)) = Ok main_template_dict ->
  lookup_cls main_template_dict = Ok template_cls ->
  construct template_cls (path git_diff) main_template_dict = Ok main_template ->
  read_file (path git_diff) = Some text ->
  yaml_load text = Ok template_dict ->
  construct template_cls (path git_diff) template_dict = Ok t ->
  reconcile config main_template t = Ok t' ->
  modified_file_step config templates git_diff = Ok (templates ++ [t']).
Proof.
  intros H1 H2 H3 H4 H5 H6 H7. unfold modified_file_step, open_file.
  rewrite H1; cbn [bind]. rewrite H2; cbn [bind]. rewrite H3; cbn [bind].
  rewrite H4; cbn [bind]. rewrite H5; cbn [bind]. rewrite H6; cbn [bind].
  rewrite H7. reflexivity.
Qed.

(** ** Revision differencer *)

Lemma iter_change_type_app ty l1 l2 :
  iter_change_type ty (l1 ++ l2) = iter_change_type ty l1 ++ iter_change_type ty l2.
Proof. apply filter_app. Qed.

Lemma for_each_skip {A S : Type} (body : S -> A -> result S) l1 a l2 :
  (forall s, body s a = Ok s) ->
  forall s, for_each body (l1 ++ a :: l2) s = for_each body (l1 ++ l2) s.
Proof.
  intros Ha s. rewrite !for_each_app.
  destruct (for_each body l1 s) as [s1|e]; simpl; [|reflexivity].
  rewrite Ha; reflexivity.
Qed.

(** An entry whose iteration of the loop over modified files changes
    nothing contributes nothing to the result. *)
Lemma collect_skip repo_dir file_obj :
  change_type file_obj = ChangeM ->
  (forall files, modified_step repo_dir files file_obj = Ok files) ->
  forall before after,
    collect repo_dir (before ++ file_obj :: after)
    = collect repo_dir (before ++ after).
Proof.
  intros Hty Hskip before after. unfold collect.
  assert (Hother : forall ty, ty <> ChangeM ->
            iter_change_type ty (before ++ file_obj :: after)
            = iter_change_type ty (before ++ after)).
  { intros ty Hne. rewrite !iter_change_type_app. f_equal.
    unfold iter_change_type. cbn [filter]. rewrite Hty.
    destruct ty; try reflexivity. contradiction. }
  rewrite (Hother ChangeA), (Hother ChangeD) by discriminate.
  destruct (for_each (new_file_step repo_dir) _ _) as [f1|e]; simpl; [|reflexivity].
  destruct (for_each (deleted_step repo_dir) _ _) as [f2|e]; simpl; [|reflexivity].
  rewrite !iter_change_type_app.
  unfold iter_change_type at 2. cbn [filter]. rewrite Hty. cbn [ChangeType_eqb].
  fold (iter_change_type ChangeM after).
  apply for_each_skip. exact Hskip.
Qed.

Lemma modified_step_managed repo_dir files file_obj cur :
  endswith (os_path_join repo_dir (b_path file_obj)) ".yaml" = true ->
  read_file (os_path_join repo_dir (b_path file_obj)) = Some cur ->
  noq_template cur = true ->
  modified_step repo_dir files file_obj
  = (o <- resolve_rename repo_dir (os_path_join repo_dir (b_path file_obj)) file_obj ;;
     match o with
     | Skip => Ok files
     | Split deleted_file new_file =>
         Ok (mkFiles (new_files files ++ [new_file])
                     (deleted_files files ++ [deleted_file])
                     (modified_files files))
     | FallThrough =>
         text <- read_blob file_obj ;;
         Ok (mkFiles (new_files files) (deleted_files files)
               (modified_files files
                  ++ [mkGitDiff
                        (os_path_join repo_dir
                           (os_path_join repo_dir (b_path file_obj)))
                        (Some text) false]))
     end).
Proof.
  intros Hext Hread Htag. unfold modified_step.
  rewrite Hext. unfold file_regex_search, open_file. rewrite Hread; simpl.
  rewrite Htag. reflexivity.
Qed.

(** C4: a renamed managed document whose pre-image and post-image parse to
    documents with an empty order-insensitive [DeepDiff] adds nothing to any
    of the three buckets, and the result of the whole diff is what it would
    be without that entry. *)
Theorem pure_rename_emits_nothing repo_dir file_obj pre cur d_pre d_cur :
  change_type file_obj = ChangeM ->
  endswith (os_path_join repo_dir (b_path file_obj)) ".yaml" = true ->
  read_file (os_path_join repo_dir (b_path file_obj)) = Some cur ->
  noq_template cur = true ->
  os_path_join repo_dir (a_path file_obj)
    <> os_path_join repo_dir (b_path file_obj) ->
  a_blob file_obj = Some pre ->
  noq_template pre = true ->
  yaml_load cur = Ok d_cur ->
  yaml_load pre = Ok d_pre ->
  DeepDiff d_cur d_pre = false ->
  (forall files, modified_step repo_dir files file_obj = Ok files) /\
  (forall before after,
      collect repo_dir (before ++ file_obj :: after)
      = collect repo_dir (before ++ after)).
Proof.
  intros Hty Hext Hread Htag Hren Hblob Hpre Hcur Hmain Hsame.
  assert (Hstep : forall files, modified_step repo_dir files file_obj = Ok files).
  { intro files. rewrite (modified_step_managed _ _ _ Hext Hread Htag).
    unfold resolve_rename.
    apply String.eqb_neq in Hren. rewrite Hren. cbn [negb].
    unfold read_blob. rewrite Hblob. cbn [bind]. rewrite Hpre.
    unfold open_file. rewrite Hread. cbn [bind]. rewrite Hcur. cbn [bind].
    rewrite Hmain. cbn [bind]. rewrite Hsame. reflexivity. }
  split; [exact Hstep|]. apply collect_skip; assumption.
Qed.

(** [os.path.join(repo_dir, os.path.join(repo_dir, p))] is
    [os.path.join(repo_dir, p)] when [repo_dir] is absolute. *)
Lemma os_path_join_twice repo_dir p :
  is_abs repo_dir = true ->
  os_path_join repo_dir (os_path_join repo_dir p) = os_path_join repo_dir p.
Proof.
  intro Habs. unfold os_path_join at 1.
  assert (Hjoin : is_abs (os_path_join repo_dir p) = true).
  { unfold os_path_join. destruct (is_abs p) eqn:Ha; [exact Ha|].
    destruct repo_dir as [|c r]; [discriminate|].
    destruct (String.eqb (String c r) "" || endswith (String c r) "/");
      exact Habs. }
  rewrite Hjoin. reflexivity.
Qed.

(** A renamed managed document whose pre-image and post-image differ and
    whose records have different [resource_id]s adds exactly one deleted
    Change Record (pre-image content, [is_deleted = True]) and one new
    Change Record (new path, no content), and no modified one.  The path of
    the deleted record is the old path joined to [repo_dir] once more (lines
    124 and 127), which is the old path only when [repo_dir] is absolute. *)
Theorem rename_with_new_identity_splits repo_dir files file_obj pre cur
    d_pre d_cur cls main_template t :
  let new_path := os_path_join repo_dir (b_path file_obj) in
  let old_path := os_path_join repo_dir (a_path file_obj) in
  endswith new_path ".yaml" = true ->
  read_file new_path = Some cur ->
  noq_template cur = true ->
  old_path <> new_path ->
  a_blob file_obj = Some pre ->
  noq_template pre = true ->
  yaml_load cur = Ok d_cur ->
  yaml_load pre = Ok d_pre ->
  DeepDiff d_cur d_pre = true ->
  lookup_cls d_pre = Ok cls ->
  construct cls (os_path_join repo_dir old_path) d_pre = Ok main_template ->
  construct cls new_path d_cur = Ok t ->
  resource_id main_template <> resource_id t ->
  modified_step repo_dir files file_obj
  = Ok (mkFiles
          (new_files files ++ [mkGitDiff new_path None false])
          (deleted_files files
             ++ [mkGitDiff (os_path_join repo_dir old_path) (Some pre) true])
          (modified_files files)) /\
  (is_abs repo_dir = true -> os_path_join repo_dir old_path = old_path).
Proof.
  intros new_path old_path Hext Hread Htag Hren Hblob Hpre Hcur Hmain Hdiff
         Hcls Hm Ht Hid.
  split.
  - subst new_path old_path.
    rewrite (modified_step_managed _ _ _ Hext Hread Htag).
    unfold resolve_rename.
    apply String.eqb_neq in Hren. rewrite Hren. cbn [negb].
    unfold read_blob. rewrite Hblob. cbn [bind]. rewrite Hpre.
    unfold open_file. rewrite Hread. cbn [bind]. rewrite Hcur. cbn [bind].
    rewrite Hmain. cbn [bind]. rewrite Hdiff. cbn [negb].
    rewrite Hcls. cbn [bind]. unfold git_diff_path. cbn [path].
    rewrite Hm. cbn [bind]. rewrite Ht. cbn [bind].
    apply String.eqb_neq in Hid. rewrite Hid. reflexivity.
  - intro Habs. subst old_path. unfold os_path_join at 1.
    assert (Hjoin : is_abs (os_path_join repo_dir (a_path file_obj)) = true).
    { unfold os_path_join. destruct (is_abs (a_path file_obj)) eqn:Ha; [exact Ha|].
      destruct repo_dir as [|c r]; [discriminate|].
      destruct (String.eqb (String c r) "" || endswith (String c r) "/");
        exact Habs. }
    rewrite Hjoin. reflexivity.
Qed.

(** ** Default base revision and the dirty report *)

(** What a call logs and fetches: the dirty report whenever the repository
    is dirty, then one fetch per remote when [from_sha] is unset. *)
Lemma retrieve_git_changes_trace repo_dir allow_dirty from_sha to_sha :
  fst (retrieve_git_changes repo_dir allow_dirty from_sha to_sha)
  = (if is_dirty (open_repo repo_dir)
     then [LogError dirty_message repo_dir] else [])
    ++ match from_sha with
       | None => map Fetch (remotes (open_repo repo_dir))
       | Some _ => []
       end.
Proof. reflexivity. Qed.

Lemma main_or_master_spec repo :
  (In "main" (heads repo) -> main_or_master repo = Ok "main") /\
  (~ In "main" (heads repo) -> In "master" (heads repo) ->
   main_or_master repo = Ok "master") /\
  (~ In "main" (heads repo) -> ~ In "master" (heads repo) ->
   main_or_master repo = Raise ValueError).
Proof.
  assert (Hex : forall x l,
             existsb (fun name => String.eqb name x) l = true <-> In x l).
  { intros x l. rewrite existsb_exists. split.
    - intros [y [Hy Heq]]. apply String.eqb_eq in Heq. subst; assumption.
    - intro Hin. exists x. split; [assumption | apply String.eqb_refl]. }
  unfold main_or_master. repeat split.
  - intro H. apply Hex in H. rewrite H. reflexivity.
  - intros Hn H. destruct (existsb _ (heads repo)) eqn:E1.
    + apply Hex in E1. contradiction.
    + apply Hex in H. rewrite H. reflexivity.
  - intros Hn Hn'. destruct (existsb _ (heads repo)) eqn:E1.
    + apply Hex in E1. contradiction.
    + destruct (existsb (fun name => String.eqb name "master") (heads repo)) eqn:E2.
      * apply Hex in E2. contradiction.
      * reflexivity.
Qed.

(** C6 (as amended): with [from_sha] unset the call fetches every remote and
    then resolves the base to [origin/main], whatever the branches are; when
    [origin/main] does not resolve, the call fails with the client's error.
    [main_or_master], which the call does not use, answers [main] if that
    branch exists, else [master] if that one exists, and raises otherwise. *)
Theorem default_base_is_origin_main repo_dir allow_dirty to_sha :
  let repo := open_repo repo_dir in
  let run := retrieve_git_changes repo_dir allow_dirty None to_sha in
  (exists logged, fst run = logged ++ map Fetch (remotes repo)) /\
  (commit repo "origin/main" = None -> snd run = Raise BadName) /\
  (forall sha, commit repo "origin/main" = Some sha ->
     snd run
     = (to_sha_obj <-
          match to_sha with
          | None => Ok (TreeObj (head_commit_tree repo))
          | Some rev => sha' <- resolve_commit repo rev ;; Ok (CommitObj sha')
          end ;;
        collect repo_dir (diff repo sha to_sha_obj))) /\
  (In "main" (heads repo) -> main_or_master repo = Ok "main") /\
  (~ In "main" (heads repo) -> In "master" (heads repo) ->
   main_or_master repo = Ok "master") /\
  (~ In "main" (heads repo) -> ~ In "master" (heads repo) ->
   main_or_master repo = Raise ValueError).
Proof.
  intros repo run. split; [|split; [|split]].
  - eexists. subst run. rewrite retrieve_git_changes_trace. reflexivity.
  - intro H. subst run repo. unfold retrieve_git_changes, resolve_commit; simpl.
    rewrite H. reflexivity.
  - intros sha H. subst run repo. unfold retrieve_git_changes; simpl.
    unfold resolve_commit at 1. rewrite H. reflexivity.
  - apply main_or_master_spec.
Qed.

(** The [allow_dirty] argument is never read. *)
Lemma allow_dirty_is_ignored repo_dir from_sha to_sha :
  retrieve_git_changes repo_dir true from_sha to_sha
  = retrieve_git_changes repo_dir false from_sha to_sha.
Proof. reflexivity. Qed.

(** * Further properties of the materializer and the differencer *)

(** ** All-or-nothing batches *)

Lemma for_each_first_failure {A S : Type} (body : S -> A -> result S)
    l1 a l2 s s1 e :
  for_each body l1 s = Ok s1 ->
  body s1 a = Raise e ->
  for_each body (l1 ++ a :: l2) s = Raise e.
Proof.
  intros H1 Ha. rewrite for_each_app, H1. simpl. rewrite Ha. reflexivity.
Qed.

Lemma modified_file_step_reconcile_file config templates git_diff :
  modified_file_step config templates git_diff
  = (t' <- reconcile_file config git_diff ;; Ok (templates ++ [t'])).
Proof.
  unfold modified_file_step, reconcile_file.
  destruct (yaml_load _) as [d|e]; simpl; [|reflexivity].
  destruct (lookup_cls d) as [c|e]; simpl; [|reflexivity].
  destruct (construct c _ d) as [m|e]; simpl; [|reflexivity].
  destruct (open_file _) as [text|e]; simpl; [|reflexivity].
  destruct (yaml_load text) as [d'|e]; simpl; [|reflexivity].
  destruct (construct c _ d') as [t|e]; simpl; reflexivity.
Qed.

Lemma modified_loop_iff config l : forall templates out,
  for_each (modified_file_step config) l templates = Ok out
  <-> exists ts, out = templates ++ ts /\
                 Forall2 (fun g t' => reconcile_file config g = Ok t') l ts.
Proof.
  induction l as [|g l IH]; intros templates out; simpl.
  - split.
    + intro H. injection H as <-. exists []. rewrite app_nil_r. auto.
    + intros [ts [-> H]]. inversion H. rewrite app_nil_r. reflexivity.
  - rewrite modified_file_step_reconcile_file.
    destruct (reconcile_file config g) as [t'|e] eqn:Hg; simpl.
    + rewrite IH. split.
      * intros [ts [-> H]]. exists (t' :: ts). rewrite <- app_assoc.
        split; [reflexivity | constructor; assumption].
      * intros [ts [-> H]]. inversion H as [|? y ? ys Hy Hys]; subst.
        rewrite Hg in Hy. injection Hy as <-.
        exists ys. rewrite <- app_assoc. auto.
    + split; [discriminate|]. intros [ts [_ H]].
      inversion H as [|? y ? ys Hy Hys]; subst. rewrite Hg in Hy. discriminate.
Qed.

(** X8: [create_templates_for_modified_files] returns a list exactly when
    every Change Record parses and reconciles, and the list then holds one
    reconciled record per Change Record, in the same order; the first record
    that fails makes the whole call raise its exception, whatever follows
    it. *)
Theorem modified_batch_is_all_or_nothing config :
  (forall modified_files ts,
      create_templates_for_modified_files config modified_files = Ok ts
      <-> Forall2 (fun g t' => reconcile_file config g = Ok t')
                  modified_files ts) /\
  (forall before g after e,
      Forall (fun g' => exists t', reconcile_file config g' = Ok t') before ->
      reconcile_file config g = Raise e ->
      create_templates_for_modified_files config (before ++ g :: after)
      = Raise e).
Proof.
  split.
  - intros l ts. unfold create_templates_for_modified_files.
    rewrite modified_loop_iff. simpl. split.
    + intros [ts' [-> H]]. exact H.
    + intro H. exists ts. auto.
  - intros before g after e Hb Hg.
    unfold create_templates_for_modified_files.
    assert (Hok : exists ts, Forall2 (fun g t' => reconcile_file config g = Ok t')
                               before ts).
    { induction Hb as [|x l [t' Hx] Hl [ts IH]].
      - exists []. constructor.
      - exists (t' :: ts). constructor; assumption. }
    destruct Hok as [ts Hts].
    eapply for_each_first_failure.
    + apply modified_loop_iff. exists ts. split; [reflexivity | exact Hts].
    + rewrite modified_file_step_reconcile_file, Hg. reflexivity.
Qed.

Lemma deleted_file_step_raise templates git_diff e :
  parse_deleted git_diff = Raise e ->
  deleted_file_step templates git_diff = Raise e.
Proof.
  unfold parse_deleted, deleted_file_step.
  destruct (yaml_load _) as [doc|e0]; simpl; [|intro H; congruence].
  destruct (lookup_cls doc) as [cls|e0]; simpl; [|intro H; congruence].
  destruct (construct cls _ doc) as [t|e0]; simpl; intro H; congruence.
Qed.

(** X9: [create_templates_for_deleted_files] returns a list exactly when
    every deleted Change Record parses; the first record that does not parse
    makes the whole call raise its exception, so no partial list is ever
    returned. *)
Theorem deleted_batch_is_all_or_nothing :
  (forall deleted_files,
      (exists ts, create_templates_for_deleted_files deleted_files = Ok ts)
      <-> Forall (fun g => exists t, parse_deleted g = Ok t) deleted_files) /\
  (forall before g after e,
      Forall (fun g' => exists t, parse_deleted g' = Ok t) before ->
      parse_deleted g = Raise e ->
      create_templates_for_deleted_files (before ++ g :: after) = Raise e).
Proof.
  assert (Hstep : forall templates g,
             (exists out, deleted_file_step templates g = Ok out)
             <-> (exists t, parse_deleted g = Ok t)).
  { intros templates g. destruct (parse_deleted g) as [t|e] eqn:Hg.
    - rewrite (deleted_file_step_parsed _ _ Hg). split; eauto.
    - rewrite (deleted_file_step_raise _ _ Hg). split; intros [x H]; discriminate. }
  split.
  - intro l. unfold create_templates_for_deleted_files.
    apply (for_each_ok_iff deleted_file_step
             (fun g => exists t, parse_deleted g = Ok t) Hstep).
  - intros before g after e Hb Hg.
    unfold create_templates_for_deleted_files.
    destruct (proj2 (for_each_ok_iff deleted_file_step
                       (fun g => exists t, parse_deleted g = Ok t) Hstep
                       before [])
                    Hb) as [s1 Hs1].
    eapply for_each_first_failure; [exact Hs1|].
    apply deleted_file_step_raise. exact Hg.
Qed.

(** ** Modified entries that stay modifications *)

(** X10: a modified managed [.yaml] entry that is not a rename, or whose
    pre-image does not carry the management tag, adds exactly one modified
    Change Record holding the pre-image content, and nothing else; neither
    document is parsed on the way. *)
Theorem ordinary_modification_emits_one_record repo_dir files file_obj pre cur :
  endswith (os_path_join repo_dir (b_path file_obj)) ".yaml" = true ->
  read_file (os_path_join repo_dir (b_path file_obj)) = Some cur ->
  noq_template cur = true ->
  a_blob file_obj = Some pre ->
  os_path_join repo_dir (a_path file_obj)
    = os_path_join repo_dir (b_path file_obj)
  \/ noq_template pre = false ->
  modified_step repo_dir files file_obj
  = Ok (mkFiles (new_files files) (deleted_files files)
          (modified_files files
             ++ [mkGitDiff
                   (os_path_join repo_dir
                      (os_path_join repo_dir (b_path file_obj)))
                   (Some pre) false])).
Proof.
  intros Hext Hread Htag Hblob Hcase.
  rewrite (modified_step_managed _ _ _ Hext Hread Htag).
  unfold resolve_rename, read_blob. rewrite Hblob.
  destruct Hcase as [Hsame|Hpre].
  - rewrite Hsame, String.eqb_refl. reflexivity.
  - destruct (negb _); cbn [bind]; [rewrite Hpre|]; reflexivity.
Qed.

(** X11: a renamed managed document whose content changed but whose
    [resource_id] did not is an ordinary modification: exactly one modified
    Change Record with the pre-image content, and no deleted or new record.
    Its path is the joined new path joined to [repo_dir] once more (lines 120
    and 156), which is the new path itself when [repo_dir] is absolute. *)
Theorem rename_keeping_identity_is_a_modification repo_dir files file_obj
    pre cur d_pre d_cur cls main_template t :
  endswith (os_path_join repo_dir (b_path file_obj)) ".yaml" = true ->
  read_file (os_path_join repo_dir (b_path file_obj)) = Some cur ->
  noq_template cur = true ->
  a_blob file_obj = Some pre ->
  noq_template pre = true ->
  yaml_load cur = Ok d_cur ->
  yaml_load pre = Ok d_pre ->
  DeepDiff d_cur d_pre = true ->
  lookup_cls d_pre = Ok cls ->
  construct cls
    (os_path_join repo_dir (os_path_join repo_dir (a_path file_obj))) d_pre
  = Ok main_template ->
  construct cls (os_path_join repo_dir (b_path file_obj)) d_cur = Ok t ->
  resource_id main_template = resource_id t ->
  modified_step repo_dir files file_obj
  = Ok (mkFiles (new_files files) (deleted_files files)
          (modified_files files
             ++ [mkGitDiff
                   (os_path_join repo_dir
                      (os_path_join repo_dir (b_path file_obj)))
                   (Some pre) false])) /\
  (is_abs repo_dir = true ->
   modified_step repo_dir files file_obj
   = Ok (mkFiles (new_files files) (deleted_files files)
           (modified_files files
              ++ [mkGitDiff (os_path_join repo_dir (b_path file_obj))
                            (Some pre) false]))).
Proof.
  intros Hext Hread Htag Hblob Hpre Hcur Hmain Hdiff Hcls Hm Ht Hid.
  assert (Hstep : modified_step repo_dir files file_obj
                  = Ok (mkFiles (new_files files) (deleted_files files)
                          (modified_files files
                             ++ [mkGitDiff
                                   (os_path_join repo_dir
                                      (os_path_join repo_dir (b_path file_obj)))
                                   (Some pre) false]))).
  { rewrite (modified_step_managed _ _ _ Hext Hread Htag).
    unfold resolve_rename, read_blob. rewrite Hblob.
    destruct (negb _); cbn [bind]; [|reflexivity].
    rewrite Hpre. unfold open_file. rewrite Hread. cbn [bind].
    rewrite Hcur. cbn [bind]. rewrite Hmain. cbn [bind]. rewrite Hdiff.
    cbn [negb]. rewrite Hcls. cbn [bind]. unfold git_diff_path. cbn [path].
    rewrite Hm. cbn [bind]. rewrite Ht. cbn [bind].
    rewrite Hid, String.eqb_refl. reflexivity. }
  split; [exact Hstep|].
  intro Habs. rewrite Hstep, (@os_path_join_twice repo_dir _ Habs). reflexivity.
Qed.

(** X12: a renamed managed document whose content changed and whose
    baseline [template_type] cannot be resolved (key missing or type unknown
    to the registry) makes the iteration raise that error; no record is
    emitted for it. *)
Theorem rename_with_unknown_type_raises repo_dir files file_obj
    pre cur d_pre d_cur e :
  endswith (os_path_join repo_dir (b_path file_obj)) ".yaml" = true ->
  read_file (os_path_join repo_dir (b_path file_obj)) = Some cur ->
  noq_template cur = true ->
  os_path_join repo_dir (a_path file_obj)
    <> os_path_join repo_dir (b_path file_obj) ->
  a_blob file_obj = Some pre ->
  noq_template pre = true ->
  yaml_load cur = Ok d_cur ->
  yaml_load pre = Ok d_pre ->
  DeepDiff d_cur d_pre = true ->
  lookup_cls d_pre = Raise e ->
  modified_step repo_dir files file_obj = Raise e /\
  (forall ty, doc_template_type d_pre = Ok ty -> TEMPLATE_TYPE_MAP ty = None ->
              e = KeyError).
Proof.
  intros Hext Hread Htag Hren Hblob Hpre Hcur Hmain Hdiff Hcls. split.
  - rewrite (modified_step_managed _ _ _ Hext Hread Htag).
    unfold resolve_rename, read_blob. rewrite Hblob.
    apply String.eqb_neq in Hren. rewrite Hren. cbn [negb bind].
    rewrite Hpre. unfold open_file. rewrite Hread. cbn [bind].
    rewrite Hcur. cbn [bind]. rewrite Hmain. cbn [bind]. rewrite Hdiff.
    cbn [negb]. rewrite Hcls. reflexivity.
  - intros ty Hty Hmap. unfold lookup_cls in Hcls. rewrite Hty in Hcls.
    cbn [bind] in Hcls. rewrite Hmap in Hcls. congruence.
Qed.

(** ** What the three buckets hold *)

Lemma endswith_app x s suffix :
  endswith s suffix = true -> endswith (x ++ s) suffix = true.
Proof.
  induction x as [|c x IH]; intro H; [exact H|].
  cbn [append endswith]. rewrite (IH H). apply orb_true_r.
Qed.

Lemma endswith_os_path_join a b suffix :
  endswith b suffix = true -> endswith (os_path_join a b) suffix = true.
Proof.
  intro H. unfold os_path_join. destruct (is_abs b); [exact H|].
  destruct (String.eqb a "" || endswith a "/").
  - apply endswith_app; assumption.
  - apply endswith_app. apply (endswith_app "/"). assumption.
Qed.

Lemma Forall_snoc {A : Type} (P : A -> Prop) l a :
  Forall P l -> P a -> Forall P (l ++ [a]).
Proof. intros Hl Ha. apply Forall_app. split; [assumption | constructor; auto]. Qed.

(** X13: in whatever [collect] returns, every new Change Record has no
    content, is not marked deleted and has a [.yaml] path; every deleted
    Change Record is marked deleted and carries content with the management
    tag; every modified Change Record is not marked deleted, carries content
    and has a [.yaml] path. *)
Theorem collect_bucket_shapes repo_dir diff_index files :
  collect repo_dir diff_index = Ok files ->
  Forall (fun g => content g = None /\ is_deleted g = false
                   /\ endswith (path g) ".yaml" = true) (new_files files) /\
  Forall (fun g => is_deleted g = true
                   /\ exists text, content g = Some text
                                   /\ noq_template text = true)
         (deleted_files files) /\
  Forall (fun g => is_deleted g = false /\ content g <> None
                   /\ endswith (path g) ".yaml" = true) (modified_files files).
Proof.
  set (Inv := fun files : Files =>
    Forall (fun g => content g = None /\ is_deleted g = false
                     /\ endswith (path g) ".yaml" = true) (new_files files) /\
    Forall (fun g => is_deleted g = true
                     /\ exists text, content g = Some text
                                     /\ noq_template text = true)
           (deleted_files files) /\
    Forall (fun g => is_deleted g = false /\ content g <> None
                     /\ endswith (path g) ".yaml" = true) (modified_files files)).
  assert (Hnew : forall s a s', new_file_step repo_dir s a = Ok s' -> Inv s -> Inv s').
  { intros s a s' H [I1 [I2 I3]]. unfold new_file_step in H.
    destruct (endswith _ ".yaml") eqn:Hext.
    - destruct (file_regex_search _) as [[|]|e]; simpl in H; try discriminate;
        injection H as <-; [|repeat split; assumption].
      split; [|split; assumption]. simpl. apply Forall_snoc; [assumption|].
      simpl. repeat split. apply endswith_os_path_join. assumption.
    - simpl in H. injection H as <-. repeat split; assumption. }
  assert (Hdel : forall s a s', deleted_step repo_dir s a = Ok s' -> Inv s -> Inv s').
  { intros s a s' H [I1 [I2 I3]]. unfold deleted_step in H.
    destruct (endswith _ ".yaml"); [|injection H as <-; repeat split; assumption].
    destruct (read_blob a) as [text|e]; simpl in H; [|discriminate].
    destruct (noq_template text) eqn:Htag; injection H as <-;
      [|repeat split; assumption].
    split; [assumption|]. split; [|assumption]. simpl.
    apply Forall_snoc; [assumption|]. simpl. eauto. }
  assert (Hmod : forall s a s', modified_step repo_dir s a = Ok s' -> Inv s -> Inv s').
  { intros s a s' H [I1 [I2 I3]]. unfold modified_step in H.
    destruct (endswith _ ".yaml") eqn:Hext;
      [|simpl in H; injection H as <-; repeat split; assumption].
    destruct (file_regex_search _) as [[|]|e]; simpl in H; try discriminate;
      [|injection H as <-; repeat split; assumption].
    destruct (resolve_rename _ _ a) as [[|d n|]|e] eqn:Hr; simpl in H;
      try discriminate.
    - injection H as <-. repeat split; assumption.
    - injection H as <-.
      unfold resolve_rename in Hr.
      destruct (negb _); [|discriminate].
      destruct (read_blob a) as [text|e]; simpl in Hr; [|discriminate].
      destruct (noq_template text) eqn:Htag; [|discriminate].
      destruct (open_file _) as [c|e]; simpl in Hr; [|discriminate].
      destruct (yaml_load c) as [d1|e]; simpl in Hr; [|discriminate].
      destruct (yaml_load text) as [d2|e]; simpl in Hr; [|discriminate].
      destruct (negb (DeepDiff d1 d2)); [discriminate|].
      destruct (lookup_cls d2) as [cls|e]; simpl in Hr; [|discriminate].
      destruct (construct cls _ d2) as [m|e]; simpl in Hr; [|discriminate].
      destruct (construct cls _ d1) as [t|e]; simpl in Hr; [|discriminate].
      destruct (negb _); [|discriminate].
      injection Hr as <- <-. simpl.
      split; [|split; [|assumption]].
      + apply Forall_snoc; [assumption|]. simpl. repeat split. assumption.
      + apply Forall_snoc; [assumption|]. simpl. eauto.
    - destruct (read_blob a) as [text|e]; simpl in H; [|discriminate].
      injection H as <-. simpl. split; [assumption|]. split; [assumption|].
      apply Forall_snoc; [assumption|]. simpl.
      repeat split; [discriminate|]. apply endswith_os_path_join. assumption. }
  intro H. unfold collect in H.
  destruct (for_each (new_file_step repo_dir) _ _) as [f1|e] eqn:H1;
    simpl in H; [|discriminate].
  destruct (for_each (deleted_step repo_dir) _ _) as [f2|e] eqn:H2;
    simpl in H; [|discriminate].
  apply (for_each_invariant _ Inv Hmod _ _ H).
  apply (for_each_invariant _ Inv Hdel _ _ H2).
  apply (for_each_invariant _ Inv Hnew _ _ H1).
  repeat split; constructor.
Qed.

(** X14: a diff index none of whose entries is a managed [.yaml] document
    (wrong extension, or no management tag in the working-tree file for
    added and modified entries and in the pre-image for deleted ones) yields
    three empty buckets. *)
Theorem unmanaged_entries_are_ignored repo_dir diff_index :
  Forall (fun d =>
            match change_type d with
            | ChangeD =>
                endswith (b_path d) ".yaml" = false
                \/ exists text, a_blob d = Some text /\ noq_template text = false
            | _ =>
                endswith (os_path_join repo_dir (b_path d)) ".yaml" = false
                \/ exists text,
                     read_file (os_path_join repo_dir (b_path d)) = Some text
                     /\ noq_template text = false
            end) diff_index ->
  collect repo_dir diff_index = Ok (mkFiles [] [] []).
Proof.
  intro Hall.
  assert (Hloop : forall (body : Files -> Diff -> result Files) ty,
             (forall d, In d diff_index -> change_type d = ty ->
                        forall s, body s d = Ok s) ->
             forall s, for_each body (iter_change_type ty diff_index) s = Ok s).
  { intros body ty Hbody s. unfold iter_change_type.
    induction diff_index as [|d l IH]; [reflexivity|].
    cbn [filter]. destruct (ChangeType_eqb (change_type d) ty) eqn:E.
    - cbn [for_each]. rewrite Hbody; [| left; reflexivity
                                      | destruct (change_type d), ty;
                                        try discriminate; reflexivity].
      cbn [bind]. apply IH.
      + inversion Hall; assumption.
      + intros d' Hd'. apply Hbody. right; assumption.
    - apply IH.
      + inversion Hall; assumption.
      + intros d' Hd'. apply Hbody. right; assumption. }
  rewrite Forall_forall in Hall.
  unfold collect.
  rewrite Hloop; [cbn [bind]; rewrite Hloop; [cbn [bind]; apply Hloop|]|].
  - intros d Hd Hty s. specialize (Hall d Hd). rewrite Hty in Hall.
    unfold modified_step. destruct Hall as [Hext|[text [Hread Htag]]].
    + rewrite Hext. reflexivity.
    + destruct (endswith _ ".yaml"); [|reflexivity].
      unfold file_regex_search, open_file. rewrite Hread. cbn [bind].
      rewrite Htag. reflexivity.
  - intros d Hd Hty s. specialize (Hall d Hd). rewrite Hty in Hall.
    unfold deleted_step. destruct Hall as [Hext|[text [Hblob Htag]]].
    + rewrite Hext. reflexivity.
    + destruct (endswith _ ".yaml"); [|reflexivity].
      unfold read_blob. rewrite Hblob. cbn [bind]. rewrite Htag. reflexivity.
  - intros d Hd Hty s. specialize (Hall d Hd). rewrite Hty in Hall.
    unfold new_file_step. destruct Hall as [Hext|[text [Hread Htag]]].
    + rewrite Hext. reflexivity.
    + destruct (endswith _ ".yaml"); [|reflexivity].
      unfold file_regex_search, open_file. rewrite Hread. cbn [bind].
      rewrite Htag. reflexivity.
Qed.

(** ** Explicit revisions *)

(** X15: with [from_sha] given nothing is fetched: the call only logs the
    dirty report, if any.  It raises [BadName] when [from_sha] does not
    resolve, and when [from_sha] resolves but a given [to_sha] does not;
    when both resolve it returns the buckets of their diff. *)
Theorem explicit_revisions_fetch_nothing repo_dir allow_dirty from_sha to_sha :
  let repo := open_repo repo_dir in
  let run := retrieve_git_changes repo_dir allow_dirty (Some from_sha) to_sha in
  Forall (fun ev => forall remote, ev <> Fetch remote) (fst run) /\
  (commit repo from_sha = None -> snd run = Raise BadName) /\
  (forall sha rev, commit repo from_sha = Some sha -> to_sha = Some rev ->
                   commit repo rev = None -> snd run = Raise BadName) /\
  (forall sha rev sha', commit repo from_sha = Some sha -> to_sha = Some rev ->
                        commit repo rev = Some sha' ->
                        snd run = collect repo_dir (diff repo sha (CommitObj sha'))) /\
  (forall sha, commit repo from_sha = Some sha -> to_sha = None ->
               snd run = collect repo_dir
                           (diff repo sha (TreeObj (head_commit_tree repo)))).
Proof.
  intros repo run. subst run repo. unfold retrieve_git_changes. cbn [fst snd].
  split; [|split; [|split; [|split]]].
  - rewrite app_nil_r. destruct (is_dirty _); repeat constructor; discriminate.
  - intro H. unfold resolve_commit. rewrite H. reflexivity.
  - intros sha rev H -> Hrev. unfold resolve_commit. rewrite H, Hrev. reflexivity.
  - intros sha rev sha' H -> Hrev. unfold resolve_commit. rewrite H, Hrev.
    reflexivity.
  - intros sha H ->. unfold resolve_commit. rewrite H. reflexivity.
Qed.

End Collaborators.

(** ** The matcher agrees with the denotation of patterns *)

Module ReFacts.
Import Re.

Lemma cat_inv r1 r2 s :
  matches (Cat r1 r2) s ->
  exists s1 s2, s = s1 ++ s2 /\ matches r1 s1 /\ matches r2 s2.
Proof. intro H; inversion H; subst; eauto. Qed.

Lemma alt_inv r1 r2 s :
  matches (Alt r1 r2) s -> matches r1 s \/ matches r2 s.
Proof. intro H; inversion H; subst; auto. Qed.

Lemma nullable_spec r : nullable r = true <-> matches r [].
Proof.
  induction r; simpl; split; intro H;
    try discriminate; try (now constructor); try (now inversion H).
  - apply andb_true_iff in H as [H1 H2].
    change (@nil ascii) with (@nil ascii ++ []). constructor; tauto.
  - apply cat_inv in H as [s1 [s2 [Heq [H1 H2]]]]. symmetry in Heq.
    apply app_eq_nil in Heq as [-> ->]. apply andb_true_iff; tauto.
  - apply orb_true_iff in H as [H|H]; [apply MAltL | apply MAltR]; tauto.
  - apply orb_true_iff. apply alt_inv in H; tauto.
Qed.

Lemma star_cons r c s :
  matches (Star r) (c :: s) ->
  exists s1 s2, s = s1 ++ s2 /\ matches r (c :: s1) /\ matches (Star r) s2.
Proof.
  intro H. remember (Star r) as r' eqn:Hr. remember (c :: s) as s' eqn:Hs.
  revert s Hs.
  induction H as [| | | | | | |r0 s1 s2 H1 _ H2 IH2]; intros t Ht;
    try discriminate.
  injection Hr as ->.
  destruct s1 as [|d s1]; simpl in Ht.
  - apply IH2; auto.
  - injection Ht as -> <-. exists s1, s2. auto.
Qed.

Lemma cat_cons r1 r2 c s :
  matches (Cat r1 r2) (c :: s) ->
  (matches r1 [] /\ matches r2 (c :: s)) \/
  (exists s1 s2, s = s1 ++ s2 /\ matches r1 (c :: s1) /\ matches r2 s2).
Proof.
  intro H. apply cat_inv in H as [s1 [s2 [Heq [H1 H2]]]].
  destruct s1 as [|d s1]; simpl in Heq.
  - subst s2. left; auto.
  - injection Heq as -> ->. right. eauto.
Qed.

Lemma deriv_spec c r : forall s, matches (deriv c r) s <-> matches r (c :: s).
Proof.
  induction r as [| |d| |r1 IH1 r2 IH2|r1 IH1 r2 IH2|r IH]; intro s; simpl.
  - split; intro H; inversion H.
  - split; intro H; inversion H.
  - destruct (Ascii.eqb c d) eqn:E.
    + apply Ascii.eqb_eq in E; subst. split; intro H; inversion H; subst; constructor.
    + apply Ascii.eqb_neq in E. split; intro H; inversion H; subst; congruence.
  - destruct (Ascii.eqb c newline) eqn:E.
    + apply Ascii.eqb_eq in E; subst. split; intro H; inversion H; subst; congruence.
    + apply Ascii.eqb_neq in E. split; intro H; inversion H; subst; now constructor.
  - assert (Hcat : matches (Cat (deriv c r1) r2) s ->
                   matches (Cat r1 r2) (c :: s)).
    { intro H. apply cat_inv in H as [s1 [s2 [-> [H1 H2]]]].
      change (c :: s1 ++ s2) with ((c :: s1) ++ s2).
      constructor; [apply IH1|]; assumption. }
    assert (Hder : forall s1 s2, matches r1 (c :: s1) -> matches r2 s2 ->
                   matches (Cat (deriv c r1) r2) (s1 ++ s2)).
    { intros s1 s2 H1 H2. constructor; [apply IH1|]; assumption. }
    destruct (nullable r1) eqn:N.
    + split; intro H.
      * apply alt_inv in H as [H|H]; [auto|].
        change (c :: s) with ([] ++ c :: s).
        constructor; [apply nullable_spec | apply IH2]; assumption.
      * apply cat_cons in H as [[H1 H2]|[s1 [s2 [-> [H1 H2]]]]].
        -- apply MAltR. apply IH2; assumption.
        -- apply MAltL. auto.
    + split; intro H; [auto|].
      apply cat_cons in H as [[H1 H2]|[s1 [s2 [-> [H1 H2]]]]].
      * apply nullable_spec in H1. congruence.
      * auto.
  - split; intro H; apply alt_inv in H as [H|H];
      solve [apply MAltL; apply IH1; assumption
            | apply MAltR; apply IH2; assumption].
  - split; intro H.
    + apply cat_inv in H as [s1 [s2 [-> [H1 H2]]]].
      change (c :: s1 ++ s2) with ((c :: s1) ++ s2).
      constructor; [apply IH|]; assumption.
    + apply star_cons in H as [s1 [s2 [-> [H1 H2]]]].
      constructor; [apply IH|]; assumption.
Qed.

Lemma match_here_spec r : forall s,
  match_here r s = true <-> exists s1 s2, s = s1 ++ s2 /\ matches r s1.
Proof.
  intro s; revert r; induction s as [|c s IH]; intro r; simpl.
  - rewrite orb_false_r, nullable_spec. split.
    + intro H. exists [], []. auto.
    + intros [s1 [s2 [Heq H]]]. symmetry in Heq.
      apply app_eq_nil in Heq as [-> _]. assumption.
  - rewrite orb_true_iff, nullable_spec, IH. split.
    + intros [H|[s1 [s2 [-> H]]]].
      * exists [], (c :: s). auto.
      * exists (c :: s1), s2. split; [reflexivity|]. apply deriv_spec; assumption.
    + intros [s1 [s2 [Heq H]]]. destruct s1 as [|d s1]; simpl in Heq.
      * left; assumption.
      * injection Heq as <- ->. right. exists s1, s2.
        split; [reflexivity|]. apply deriv_spec; assumption.
Qed.

(** [re.search] finds a match exactly when some contiguous block of the
    subject matches the pattern. *)
Lemma search_spec r : forall s,
  search r s = true <->
  exists pre mid post, s = pre ++ mid ++ post /\ matches r mid.
Proof.
  induction s as [|c s IH]; cbn [search].
  - rewrite orb_false_r, match_here_spec. split.
    + intros [s1 [s2 [Heq H]]]. exists [], s1, s2. auto.
    + intros [pre [mid [post [Heq H]]]]. symmetry in Heq.
      apply app_eq_nil in Heq as [-> Heq]. exists mid, post. auto.
  - rewrite orb_true_iff, IH, match_here_spec. split.
    + intros [[s1 [s2 [Heq H]]]|[pre [mid [post [-> H]]]]].
      * exists [], s1, s2. auto.
      * exists (c :: pre), mid, post. auto.
    + intros [pre [mid [post [Heq H]]]]. destruct pre as [|d pre]; simpl in Heq.
      * left. exists mid, post. auto.
      * injection Heq as <- ->. right. exists pre, mid, post. auto.
Qed.

(** *** Patterns made of ordinary characters *)

Lemma prefixb_spec x : forall s,
  prefixb x s = true <-> exists post, s = x ++ post.
Proof.
  induction x as [|c x IH]; intro s; simpl.
  - split; [intros _; exists s; reflexivity | reflexivity].
  - destruct s as [|d s].
    + split; [discriminate | intros [post H]; discriminate].
    + rewrite andb_true_iff, IH. split.
      * intros [E [post ->]]. apply Ascii.eqb_eq in E; subst. eauto.
      * intros [post H]. injection H as -> ->.
        split; [apply Ascii.eqb_refl | eauto].
Qed.

Lemma occursb_spec x : forall s,
  occursb x s = true <-> exists pre post, s = pre ++ x ++ post.
Proof.
  induction s as [|c s IH]; cbn [occursb].
  - rewrite orb_false_r, prefixb_spec. split.
    + intros [post H]. exists [], post. assumption.
    + intros [pre [post H]]. symmetry in H.
      apply app_eq_nil in H as [-> H]. exists post. symmetry; assumption.
  - rewrite orb_true_iff, IH, prefixb_spec. split.
    + intros [[post H]|[pre [post ->]]].
      * exists [], post. assumption.
      * exists (c :: pre), post. reflexivity.
    + intros [pre [post H]]. destruct pre as [|d pre]; simpl in H.
      * left. eauto.
      * injection H as <- ->. right. eauto.
Qed.

Lemma parse_lits l rest : forall cur stack,
  forallb literal l = true ->
  parse (l ++ rest) cur stack = parse rest (push_lits l cur) stack.
Proof.
  induction l as [|c l IH]; intros cur stack H; [reflexivity|].
  simpl in H. apply andb_true_iff in H as [Hc Hl].
  cbn [app parse]. unfold literal in Hc.
  destruct (classify c); try discriminate.
  rewrite IH by assumption. reflexivity.
Qed.

Lemma f_alt_push_lits l : forall f, f_alt (push_lits l f) = f_alt f.
Proof.
  induction l as [|c l IH]; intro f; [reflexivity|].
  cbn [push_lits fold_left]. fold (push_lits l (push_atom (Chr c) f)).
  rewrite IH. reflexivity.
Qed.

Lemma close_seq_push_lits l : forall f s,
  matches (close_seq (push_lits l f)) s <->
  exists s0, s = s0 ++ l /\ matches (close_seq f) s0.
Proof.
  induction l as [|c l IH]; intros f s.
  - simpl. split.
    + intro H. exists s. rewrite app_nil_r. auto.
    + intros [s0 [-> H]]. rewrite app_nil_r. assumption.
  - cbn [push_lits fold_left]. fold (push_lits l (push_atom (Chr c) f)).
    rewrite IH. split.
    + intros [s0 [-> H]]. unfold push_atom, close_seq in H; simpl in H.
      apply cat_inv in H as [s1 [s2 [-> [H1 H2]]]]. inversion H2; subst.
      exists s1. rewrite <- app_assoc. auto.
    + intros [s0 [-> H]]. exists (s0 ++ [c]). rewrite <- app_assoc.
      split; [reflexivity|]. unfold push_atom, close_seq; simpl.
      constructor; [assumption | constructor].
Qed.

(** The pattern read from a run of ordinary characters matches that run and
    nothing else. *)
Lemma lits_matches l s :
  matches (close_frame (push_lits l empty_frame)) s <-> s = l.
Proof.
  unfold close_frame. rewrite f_alt_push_lits. simpl.
  rewrite close_seq_push_lits. simpl. split.
  - intros [s0 [-> H]]. inversion H; subst. reflexivity.
  - intros ->. exists []. split; [reflexivity | constructor].
Qed.

Lemma search_exact r l :
  (forall s, matches r s <-> s = l) ->
  forall s, search r s = occursb l s.
Proof.
  intros Hr s. apply eq_true_iff_eq. rewrite search_spec, occursb_spec. split.
  - intros [pre [mid [post [-> H]]]]. apply Hr in H; subst. eauto.
  - intros [pre [post ->]]. exists pre, l, post. split; [reflexivity|].
    apply Hr; reflexivity.
Qed.

Lemma search_either r l1 l2 :
  (forall s, matches r s <-> s = l1 \/ s = l2) ->
  forall s, search r s = occursb l1 s || occursb l2 s.
Proof.
  intros Hr s. apply eq_true_iff_eq.
  rewrite orb_true_iff, search_spec, !occursb_spec. split.
  - intros [pre [mid [post [-> H]]]]. apply Hr in H as [->| ->]; eauto.
  - intros [[pre [post ->]]|[pre [post ->]]].
    + exists pre, l1, post. split; [reflexivity|]. apply Hr; auto.
    + exists pre, l2, post. split; [reflexivity|]. apply Hr; auto.
Qed.

Lemma list_ascii_of_string_app a b :
  list_ascii_of_string (a ++ b) = list_ascii_of_string a ++ list_ascii_of_string b.
Proof. induction a as [|c a IH]; simpl; [reflexivity | rewrite IH; reflexivity]. Qed.

End ReFacts.

(** ** Searching for plain matchers *)

Lemma re_compile_plain pattern :
  plain pattern = true ->
  Re.compile pattern
  = Ok (Re.close_frame
          (Re.push_lits (list_ascii_of_string pattern) Re.empty_frame)).
Proof.
  intro H. unfold Re.compile.
  rewrite <- (app_nil_r (list_ascii_of_string pattern)) at 1.
  rewrite ReFacts.parse_lits by exact H. reflexivity.
Qed.

(** A plain matcher is found exactly where it occurs as a substring. *)
Lemma re_search_plain pattern s :
  plain pattern = true -> re_search pattern s = Ok (occurs pattern s).
Proof.
  intro H. unfold re_search. rewrite re_compile_plain by assumption. simpl.
  f_equal. apply ReFacts.search_exact. apply ReFacts.lits_matches.
Qed.

Lemma plain_not_wildcard a : plain a = true -> String.eqb a "*" = false.
Proof.
  intro H. destruct (String.eqb a "*") eqn:E; [|reflexivity].
  apply String.eqb_eq in E; subst. discriminate.
Qed.

Lemma occurs_refl a : occurs a a = true.
Proof.
  unfold occurs. apply ReFacts.occursb_spec. exists [], [].
  rewrite app_nil_r. reflexivity.
Qed.

Lemma literal_not_question c l :
  forallb Re.literal (c :: l) = true -> Ascii.eqb c "?" = false.
Proof.
  simpl. intro H. apply andb_true_iff in H as [H _].
  destruct (Ascii.eqb c "?") eqn:E; [|reflexivity].
  apply Ascii.eqb_eq in E; subst. discriminate.
Qed.

Lemma parse_group_of_two l1 l2 :
  forallb Re.literal l1 = true ->
  forallb Re.literal l2 = true ->
  Re.parse ("("%char :: l1 ++ "|"%char :: l2 ++ [")"%char]) Re.empty_frame []
  = Ok (Re.close_frame
          (Re.push_atom
             (Re.close_frame
                (Re.push_lits l2 (Re.next_alt (Re.push_lits l1 Re.empty_frame))))
             Re.empty_frame)).
Proof.
  intros H1 H2.
  cbn [Re.parse]. change (Re.classify "(") with Re.TOpen. cbv iota.
  assert (Hq : Re.starts_with_question (l1 ++ "|"%char :: l2 ++ [")"%char])
               = false).
  { destruct l1 as [|c l].
    - reflexivity.
    - simpl. eapply literal_not_question; eassumption. }
  rewrite Hq.
  rewrite ReFacts.parse_lits by exact H1.
  cbn [Re.parse]. change (Re.classify "|") with Re.TBar. cbv iota.
  rewrite ReFacts.parse_lits by exact H2.
  cbn [Re.parse]. change (Re.classify ")") with Re.TClose. cbv iota.
  reflexivity.
Qed.

Lemma group_of_two_matches l1 l2 t :
  Re.matches
    (Re.close_frame
       (Re.push_atom
          (Re.close_frame
             (Re.push_lits l2 (Re.next_alt (Re.push_lits l1 Re.empty_frame))))
          Re.empty_frame)) t
  <-> t = l1 \/ t = l2.
Proof.
  unfold Re.close_frame at 1. simpl. split.
  - intro H. apply ReFacts.cat_inv in H as [s1 [s2 [-> [H1 H2]]]].
    inversion H1; subst. simpl.
    unfold Re.close_frame at 1 in H2. rewrite ReFacts.f_alt_push_lits in H2.
    simpl in H2. apply ReFacts.alt_inv in H2 as [H2|H2].
    + left. apply ReFacts.lits_matches. exact H2.
    + right. apply ReFacts.close_seq_push_lits in H2 as [s0 [-> H0]].
      simpl in H0. inversion H0; subst. reflexivity.
  - intro H. change t with ([] ++ t). constructor; [constructor|].
    unfold Re.close_frame at 1. rewrite ReFacts.f_alt_push_lits. simpl.
    destruct H as [->| ->].
    + apply Re.MAltL. apply ReFacts.lits_matches. reflexivity.
    + apply Re.MAltR. apply ReFacts.close_seq_push_lits.
      exists []. split; [reflexivity | constructor].
Qed.

(** The pattern built from a registry entry is found exactly where the
    account id or the account name occurs. *)
Lemma re_search_account_regex aws_account s :
  plain (account_id aws_account) = true ->
  plain (account_name aws_account) = true ->
  re_search (account_regex aws_account) s
  = Ok (occurs (account_id aws_account) s
        || occurs (account_name aws_account) s).
Proof.
  destruct aws_account as [id name]; cbn [account_id account_name].
  intros Hid Hname.
  assert (Hl : list_ascii_of_string (account_regex (mkAWSAccount id name))
               = "("%char :: list_ascii_of_string id
                   ++ "|"%char :: list_ascii_of_string name ++ [")"%char]).
  { unfold account_regex; cbn [account_id account_name].
    change ("(" ++ (id ++ "|" ++ name ++ ")"))%string
      with (String "(" (id ++ String "|" (name ++ ")")))%string.
    cbn [list_ascii_of_string].
    rewrite ReFacts.list_ascii_of_string_app. cbn [list_ascii_of_string].
    rewrite ReFacts.list_ascii_of_string_app. reflexivity. }
  unfold re_search, Re.compile. rewrite Hl.
  rewrite parse_group_of_two by assumption. cbn [bind].
  f_equal. unfold occurs. apply ReFacts.search_either.
  apply group_of_two_matches.
Qed.

(** ** The [deleted] field is untouched by the two passes *)

Lemma mark_for_deletion_deleted a st :
  deleted (template (mark_for_deletion a st)) = deleted (template st).
Proof. reflexivity. Qed.

Lemma implicit_step_deleted str st acct st' :
  implicit_step str st acct = Ok st' ->
  deleted (template st') = deleted (template st).
Proof.
  unfold implicit_step; destruct (re_search _ _) as [[|]|e]; simpl; intro H;
    try discriminate; injection H as <-; reflexivity.
Qed.

Lemma explicit_step_deleted str st a st' :
  explicit_step str st a = Ok st' ->
  deleted (template st') = deleted (template st).
Proof.
  unfold explicit_step; destruct (re_search _ _) as [[|]|e]; simpl; intro H;
    try discriminate; injection H as <-; reflexivity.
Qed.

Lemma shrink_pass_deleted config main dea st st' :
  shrink_pass config main dea st = Ok st' ->
  deleted (template st') = deleted (template st).
Proof.
  unfold shrink_pass.
  destruct (negb (contains "*" dea)).
  - destruct (contains "*" (included_accounts main)); intro H.
    + apply (for_each_invariant _
               (fun s => deleted (template s) = deleted (template st))) in H;
        auto.
      intros s a s' Hs Hd. rewrite <- Hd. eapply implicit_step_deleted; eauto.
    + apply (for_each_invariant _
               (fun s => deleted (template s) = deleted (template st))) in H;
        auto.
      intros s a s' Hs Hd. rewrite <- Hd. eapply explicit_step_deleted; eauto.
  - intro H; injection H as <-; reflexivity.
Qed.

Lemma excluded_step_deleted main acc a acc' :
  excluded_step main acc a = Ok acc' ->
  deleted (template (fst acc')) = deleted (template (fst acc)).
Proof.
  destruct acc as [st te]; unfold excluded_step.
  destruct (already_excluded main a) as [[|]|e]; simpl; intro H; try discriminate.
  - injection H as <-; reflexivity.
  - destruct (previously_included main a) as [[|]|e]; simpl in H; try discriminate;
      injection H as <-; reflexivity.
Qed.

Lemma excluded_pass_deleted main st st' :
  excluded_pass main st = Ok st' ->
  deleted (template st') = deleted (template st).
Proof.
  unfold excluded_pass.
  destruct (for_each _ _ _) as [[s te]|e] eqn:H; simpl; intro H'; [|discriminate].
  injection H' as <-; simpl.
  apply (for_each_invariant _
           (fun acc => deleted (template (fst acc)) = deleted (template st)))
    in H;
    auto.
  intros acc a acc' Hs Hd. rewrite <- Hd. eapply excluded_step_deleted; eauto.
Qed.

Lemma accumulate_deleted config main t st :
  accumulate config main t = Ok st ->
  deleted (template st) = deleted t.
Proof.
  unfold accumulate.
  destruct (shrink_pass _ _ _ _) as [s1|e] eqn:H1; simpl; intro H2; [|discriminate].
  apply excluded_pass_deleted in H2. apply shrink_pass_deleted in H1.
  rewrite H2, H1; reflexivity.
Qed.

(** What [attach_directive] does to the [deleted] field when the accumulator
    is not empty. *)
Lemma attach_directive_nonempty dea st :
  deleted_included_accounts st <> [] ->
  deleted (attach_directive dea st) =
    match deleted (template st) with
    | DeletedBool true => DeletedBool true
    | DeletedBool false =>
        DeletedList [deleted_obj (deleted_included_accounts st) dea]
    | DeletedList l =>
        DeletedList (l ++ [deleted_obj (deleted_included_accounts st) dea])
    end.
Proof.
  intro Hne. unfold attach_directive, deleted_is_true.
  destruct (deleted_included_accounts st) as [|a l] eqn:Hd; [contradiction|].
  destruct (deleted (template st)) as [[|]|ds] eqn:Hdel; simpl; auto.
Qed.

Lemma attach_directive_other_fields dea st :
  included_accounts (attach_directive dea st) = included_accounts (template st) /\
  excluded_accounts (attach_directive dea st) = excluded_accounts (template st).
Proof.
  unfold attach_directive.
  destruct (deleted_included_accounts st); [auto|].
  destruct (deleted_is_true (template st)); [auto|].
  destruct (deleted (template st)); auto.
Qed.

(** ** The synthesized directive *)

(** C1 (as amended): when the passes accumulated a non-empty
    [deleted_included_accounts] and the current record's [deleted] is not
    already [True], reconciliation adds one directive with [deleted = True],
    [included_accounts] equal to the accumulated matchers, and
    [excluded_accounts] equal to the CURRENT record's [included_accounts]
    (as parsed, before the passes append to it) without the wildcard. *)
Theorem directive_excludes_current_scope config main_template t st :
  accumulate config main_template t = Ok st ->
  deleted_included_accounts st <> [] ->
  deleted t <> DeletedBool true ->
  exists t',
    reconcile config main_template t = Ok t' /\
    deleted t' =
      DeletedList
        (directives (deleted t) ++
         [mkDeleted true (deleted_included_accounts st)
                    (filter not_wildcard (included_accounts t))]).
Proof.
  intros Hacc Hne Hdel. unfold reconcile. rewrite Hacc; simpl.
  eexists; split; [reflexivity|].
  rewrite attach_directive_nonempty by assumption.
  rewrite (accumulate_deleted _ _ _ Hacc).
  destruct (deleted t) as [[|]|l]; [congruence| |]; reflexivity.
Qed.

Lemma directive_excludes_current_scope_witness :
  exists t',
    reconcile registry (role ["prod"; "staging"; "dev"] [] (DeletedBool false))
              (role ["staging"; "dev"] [] (DeletedBool false)) = Ok t' /\
    deleted t' =
      DeletedList [mkDeleted true ["prod"] ["staging"; "dev"]].
Proof.
  apply (@directive_excludes_current_scope registry
           (role ["prod"; "staging"; "dev"] [] (DeletedBool false))
           (role ["staging"; "dev"] [] (DeletedBool false))
           (mkScope ["prod"] (role ["staging"; "dev"; "prod"] [] (DeletedBool false)))).
  - vm_compute; reflexivity.
  - simpl; discriminate.
  - simpl; discriminate.
Defined.

(** C1 (as stated) fails: for the explicit shrink of the docstring on lines
    243-255 the directive excludes the current scope [staging, dev], not the
    baseline's [prod, staging, dev]. *)
Lemma directive_excludes_baseline_scope_fails :
  let main_template := role ["prod"; "staging"; "dev"] [] (DeletedBool false) in
  let t := role ["staging"; "dev"] [] (DeletedBool false) in
  exists st t' d,
    accumulate registry main_template t = Ok st /\
    deleted_included_accounts st <> [] /\
    deleted t <> DeletedBool true /\
    reconcile registry main_template t = Ok t' /\
    deleted t' = DeletedList [d] /\
    d_deleted d = true /\
    d_included_accounts d = deleted_included_accounts st /\
    d_excluded_accounts d
      <> filter not_wildcard (included_accounts main_template).
Proof.
  simpl.
  exists (mkScope ["prod"] (role ["staging"; "dev"; "prod"] [] (DeletedBool false))).
  eexists. eexists.
  split; [vm_compute; reflexivity|].
  split; [simpl; discriminate|].
  split; [discriminate|].
  split; [vm_compute; reflexivity|].
  split; [reflexivity|].
  split; [reflexivity|].
  split; [reflexivity|].
  vm_compute; discriminate.
Qed.

(** C7: when a directive is synthesized, a record whose [deleted] already is
    a list of directives gets the new directive appended after all prior
    ones, which are kept as they were; a record whose [deleted] is [False]
    gets a one-element list; and [True] is left alone. *)
Theorem directive_is_appended config main_template t st :
  accumulate config main_template t = Ok st ->
  deleted_included_accounts st <> [] ->
  exists t',
    reconcile config main_template t = Ok t' /\
    let obj := deleted_obj (deleted_included_accounts st) (included_accounts t) in
    match deleted t with
    | DeletedList prior => deleted t' = DeletedList (prior ++ [obj])
    | DeletedBool false => deleted t' = DeletedList [obj]
    | DeletedBool true => deleted t' = DeletedBool true
    end.
Proof.
  intros Hacc Hne. unfold reconcile. rewrite Hacc; simpl.
  eexists; split; [reflexivity|].
  rewrite attach_directive_nonempty by assumption.
  rewrite (accumulate_deleted _ _ _ Hacc).
  destruct (deleted t) as [[|]|l]; reflexivity.
Qed.

Lemma directive_is_appended_witness :
  exists t',
    reconcile registry
      (role ["prod"; "staging"] [] (DeletedBool false))
      (role ["staging"] []
         (DeletedList [mkDeleted true ["dev"] ["prod"; "staging"]])) = Ok t' /\
    deleted t' =
      DeletedList [mkDeleted true ["dev"] ["prod"; "staging"];
                   mkDeleted true ["prod"] ["staging"]].
Proof.
  apply (@directive_is_appended registry
           (role ["prod"; "staging"] [] (DeletedBool false))
           (role ["staging"] []
              (DeletedList [mkDeleted true ["dev"] ["prod"; "staging"]]))
           (mkScope ["prod"]
              (role ["staging"; "prod"] []
                 (DeletedList [mkDeleted true ["dev"] ["prod"; "staging"]])))).
  - vm_compute; reflexivity.
  - simpl; discriminate.
Defined.

(** ** The newly-excluded pass *)

Lemma re_search_found pattern s :
  compiles pattern = true -> re_search pattern s = Ok (found pattern s).
Proof.
  unfold compiles, found, re_search.
  destruct (Re.compile pattern); simpl; [reflexivity | discriminate].
Qed.

Lemma already_excluded_found main_template account :
  compiles account = true ->
  already_excluded main_template account
  = Ok (baseline_excludes main_template account).
Proof.
  intro Hc. unfold already_excluded, baseline_excludes,
    main_template_excluded_accounts_str.
  destruct (excluded_accounts main_template) as [|x l]; [reflexivity|].
  destruct (join newline_str (x :: l)) as [|c s] eqn:Hj.
  - reflexivity.
  - cbn [truthy String.eqb negb andb]. apply re_search_found; assumption.
Qed.

Lemma previously_included_found main_template account :
  compiles account = true ->
  previously_included main_template account
  = Ok (baseline_live main_template account).
Proof.
  intro Hc. unfold previously_included, baseline_live.
  rewrite re_search_found by assumption. reflexivity.
Qed.

Lemma excluded_step_classified main_template st kept account :
  compiles account = true ->
  excluded_step main_template (st, kept) account
  = Ok (match classify_excluded main_template account with
        | MovedToDirective => (mark_for_deletion account st, kept)
        | AlreadyExcluded | OrdinaryExclusion => (st, kept ++ [account])
        end).
Proof.
  intro Hc. unfold excluded_step, classify_excluded.
  rewrite already_excluded_found by assumption; simpl.
  destruct (baseline_excludes main_template account); [reflexivity|].
  rewrite previously_included_found by assumption; simpl.
  destruct (baseline_live main_template account); reflexivity.
Qed.

Lemma mark_all_nil st : mark_all [] st = st.
Proof.
  destruct st as [d [ty fp rid incl excl del]]; unfold mark_all; simpl.
  rewrite !app_nil_r; reflexivity.
Qed.

Lemma mark_all_cons a l st :
  mark_all l (mark_for_deletion a st) = mark_all (a :: l) st.
Proof.
  unfold mark_all, mark_for_deletion, set_included_accounts; simpl.
  rewrite <- !app_assoc; reflexivity.
Qed.

Lemma excluded_loop_classified main_template l :
  Forall (fun a => compiles a = true) l ->
  forall st kept,
    for_each (excluded_step main_template) l (st, kept)
    = Ok (mark_all (filter (moved main_template) l) st,
          kept ++ filter (fun a => negb (moved main_template a)) l).
Proof.
  induction 1 as [|a l Ha Hl IH]; intros st kept.
  - simpl. rewrite mark_all_nil, app_nil_r; reflexivity.
  - cbn [for_each]. rewrite excluded_step_classified by assumption.
    cbn [filter bind].
    destruct (classify_excluded main_template a) eqn:Hcl;
      (assert (Hm : moved main_template a
                    = match classify_excluded main_template a with
                      | MovedToDirective => true
                      | _ => false
                      end) by reflexivity);
      rewrite Hcl in Hm; rewrite Hm; cbn [negb];
      rewrite IH; try rewrite mark_all_cons; try rewrite <- app_assoc;
      reflexivity.
Qed.

Lemma occurs_app_l a s1 s2 : occurs a s1 = true -> occurs a (s1 ++ s2) = true.
Proof.
  unfold occurs. rewrite ReFacts.list_ascii_of_string_app, !ReFacts.occursb_spec.
  intros [pre [post ->]]. exists pre, (post ++ list_ascii_of_string s2).
  rewrite <- !app_assoc. reflexivity.
Qed.

Lemma occurs_app_r a s1 s2 : occurs a s2 = true -> occurs a (s1 ++ s2) = true.
Proof.
  unfold occurs. rewrite ReFacts.list_ascii_of_string_app, !ReFacts.occursb_spec.
  intros [pre [post ->]]. exists (list_ascii_of_string s1 ++ pre), post.
  rewrite <- !app_assoc. reflexivity.
Qed.

(** A member of a list occurs in the newline-joined list. *)
Lemma occurs_join_member a l :
  In a l -> occurs a (join newline_str l) = true.
Proof.
  unfold join. induction l as [|x l IH]; [contradiction|].
  intros [->|Hin]; cbn [String.concat]; destruct l as [|y l].
  - apply occurs_refl.
  - apply occurs_app_l, occurs_refl.
  - contradiction.
  - apply occurs_app_r, occurs_app_r. apply IH; assumption.
Qed.

Lemma occurs_empty a : occurs a "" = true -> a = "".
Proof.
  unfold occurs. rewrite ReFacts.occursb_spec. intros [pre [post H]].
  symmetry in H. apply app_eq_nil in H as [_ H]. apply app_eq_nil in H as [H _].
  destruct a; [reflexivity | discriminate].
Qed.

Lemma found_plain a s : plain a = true -> found a s = occurs a s.
Proof. intro H. unfold found. rewrite re_search_plain by assumption. reflexivity. Qed.

(** A plain matcher listed in the baseline's [excluded_accounts] is
    classified as already excluded. *)
Lemma member_already_excluded main_template a :
  plain a = true -> a <> "" ->
  In a (excluded_accounts main_template) ->
  classify_excluded main_template a = AlreadyExcluded.
Proof.
  intros Hp Hne Hin. unfold classify_excluded, baseline_excludes.
  rewrite found_plain by assumption.
  pose proof (occurs_join_member _ _ Hin) as Hocc. rewrite Hocc.
  destruct (String.eqb _ "") eqn:E; [|reflexivity].
  apply String.eqb_eq in E. rewrite E in Hocc.
  apply occurs_empty in Hocc. contradiction.
Qed.

(** ** The differencer and the materializer on the sample repository *)

Lemma materialize_deleted_skips_already_deleted_witness :
  create_templates_for_deleted_files sample_world
    [mkGitDiff "/repo/groups/infra.yaml" (Some infra_doc) true;
     mkGitDiff "/repo/groups/retired.yaml" (Some retired_doc) true]
  = Ok [mkTemplate "NOQ::Google::Group" "/repo/groups/infra.yaml" infra_doc
                   ["*"] [] (DeletedBool true)].
Proof.
  apply (proj1 (@materialize_deleted_skips_already_deleted sample_world
    [mkGitDiff "/repo/groups/infra.yaml" (Some infra_doc) true;
     mkGitDiff "/repo/groups/retired.yaml" (Some retired_doc) true]
    [mkTemplate "NOQ::Google::Group" "/repo/groups/infra.yaml" infra_doc
                ["*"] [] (DeletedBool false);
     mkTemplate "NOQ::Google::Group" "/repo/groups/retired.yaml" retired_doc
                ["*"] [] (DeletedBool true)]
    ltac:(repeat constructor))).
Defined.

Lemma pure_rename_emits_nothing_witness :
  modified_step sample_world "/repo" (mkFiles [] [] []) (renamed platform_doc)
  = Ok (mkFiles [] [] []) /\
  collect sample_world "/repo" [renamed platform_doc] = Ok (mkFiles [] [] []).
Proof.
  pose proof (@pure_rename_emits_nothing sample_world "/repo"
                (renamed platform_doc) platform_doc platform_doc
                platform_doc platform_doc
                eq_refl eq_refl eq_refl eq_refl
                ltac:(vm_compute; discriminate)
                eq_refl eq_refl eq_refl eq_refl eq_refl) as [Hstep Hall].
  split; [apply Hstep | apply (Hall [] [])].
Defined.

Lemma rename_with_new_identity_splits_witness :
  modified_step sample_world "/repo" (mkFiles [] [] []) (renamed infra_doc)
  = Ok (mkFiles [mkGitDiff "/repo/groups/platform.yaml" None false]
                [mkGitDiff "/repo/groups/infra.yaml" (Some infra_doc) true]
                []).
Proof.
  apply (proj1 (@rename_with_new_identity_splits sample_world "/repo"
                  (mkFiles [] [] []) (renamed infra_doc) infra_doc platform_doc
                  infra_doc platform_doc tt
                  (mkTemplate "NOQ::Google::Group" "/repo/groups/infra.yaml"
                              infra_doc ["*"] [] (DeletedBool false))
                  (mkTemplate "NOQ::Google::Group" "/repo/groups/platform.yaml"
                              platform_doc ["*"] [] (DeletedBool false))
                  eq_refl eq_refl eq_refl
                  ltac:(vm_compute; discriminate)
                  eq_refl eq_refl eq_refl eq_refl eq_refl eq_refl eq_refl eq_refl
                  ltac:(vm_compute; discriminate))).
Defined.

(** C5, at a failing input: with the relative [repo_dir = "rel"], renaming
    [groups/infra.yaml] to [groups/platform.yaml] while changing its content
    and its [resource_id] adds one new record (new path, no content) and one
    deleted record (pre-image content, [is_deleted = True]) and no modified
    one, but the deleted record's path is [rel/rel/groups/infra.yaml]:
    line 127 joins [repo_dir] onto [main_path], which line 124 had already
    joined, so it is not the old path [rel/groups/infra.yaml]. *)
Theorem rename_split_joins_old_path_twice :
  modified_step sample_world_rel "rel" (mkFiles [] [] []) (renamed infra_doc)
  = Ok (mkFiles [mkGitDiff "rel/groups/platform.yaml" None false]
                [mkGitDiff "rel/rel/groups/infra.yaml" (Some infra_doc) true]
                []) /\
  os_path_join "rel" (a_path (renamed infra_doc)) = "rel/groups/infra.yaml" /\
  String.eqb "rel/rel/groups/infra.yaml"
             (os_path_join "rel" (a_path (renamed infra_doc))) = false.
Proof. vm_compute. repeat split. Qed.

Lemma default_base_is_origin_main_witness :
  snd (retrieve_git_changes sample_world "/repo" false None None)
  = Ok (mkFiles [] [] []).
Proof.
  apply (proj1 (proj2 (proj2 (@default_base_is_origin_main sample_world "/repo"
                                 false None))) "c0ffee" eq_refl).
Defined.

(** C6 (as stated) fails: in a repository whose default branch is [master]
    ([origin/master] resolves, no [main]) the base is not resolved to
    [origin/master]; the call fails in the client once the remotes are
    fetched. *)
Lemma default_base_ignores_master :
  heads (open_repo sample_world "/legacy") = ["master"; "feature"] /\
  main_or_master (open_repo sample_world "/legacy") = Ok "master" /\
  commit (open_repo sample_world "/legacy") "origin/master" = Some "c0ffee" /\
  retrieve_git_changes sample_world "/legacy" false None None
  = ([Fetch "origin"], Raise BadName).
Proof. repeat split. Qed.

(** C8, at the failing input: on a dirty working tree with
    [allow_dirty = True] the call still logs that the repository is dirty
    "and allow_dirty is not enabled", exactly as with [allow_dirty = False];
    in both cases it goes on and returns the diff. *)
Theorem dirty_report_ignores_allow_dirty :
  is_dirty (open_repo sample_world "/wip") = true /\
  retrieve_git_changes sample_world "/wip" true None None
  = ([LogError dirty_message "/wip"; Fetch "origin"], Ok (mkFiles [] [] [])) /\
  retrieve_git_changes sample_world "/wip" false None None
  = ([LogError dirty_message "/wip"; Fetch "origin"], Ok (mkFiles [] [] [])).
Proof. repeat split. Qed.

(** ** The shrink pass *)

(** C2: with a baseline of [included_accounts = ["*"]], a current record of
    [included_accounts = ["dev", "staging"]] and the registry
    [prod, staging, dev] (plain account ids, that of prod not occurring in
    the current list), the directive's [included_accounts] holds the matcher
    of prod and nothing else; and with a baseline of
    [["prod", "staging", "dev"]] and a current [["staging", "dev"]] it holds
    exactly [prod]. *)
Theorem shrink_pass_marks_exactly_prod
    (id_prod id_staging id_dev : string) (config : Config)
    (main_template t : Template) :
  excluded_accounts t = [] ->
  deleted t = DeletedBool false ->
  (plain id_prod = true ->
   plain id_staging = true ->
   plain id_dev = true ->
   occurs id_prod (join newline_str ["dev"; "staging"]) = false ->
   included_accounts main_template = ["*"] ->
   included_accounts t = ["dev"; "staging"] ->
   exists t',
     reconcile (mkConfig [mkAWSAccount id_prod "prod";
                          mkAWSAccount id_staging "staging";
                          mkAWSAccount id_dev "dev"]) main_template t = Ok t' /\
     deleted t'
     = DeletedList [mkDeleted true [account_regex (mkAWSAccount id_prod "prod")]
                              ["dev"; "staging"]]) /\
  (included_accounts main_template = ["prod"; "staging"; "dev"] ->
   included_accounts t = ["staging"; "dev"] ->
   exists t',
     reconcile config main_template t = Ok t' /\
     deleted t' = DeletedList [mkDeleted true ["prod"] ["staging"; "dev"]]).
Proof.
  intros Hexcl Hdel.
  destruct main_template as [mty mfp mrid mincl mexcl mdel].
  destruct t as [ty fp rid incl excl del].
  cbn [included_accounts excluded_accounts deleted] in *. subst excl del.
  split.
  - intros Hp Hs Hd Hocc -> ->.
    unfold reconcile, accumulate, shrink_pass.
    cbn [included_accounts aws_accounts].
    change (contains "*" ["dev"; "staging"]) with false.
    change (contains "*" ["*"]) with true.
    cbn [negb for_each]. unfold implicit_step.
    rewrite !re_search_account_regex
      by (cbn [account_id account_name]; first [assumption | reflexivity]).
    cbn [account_id account_name]. rewrite Hocc.
    change (occurs "prod" (join newline_str ["dev"; "staging"])) with false.
    change (occurs "staging" (join newline_str ["dev"; "staging"])) with true.
    change (occurs "dev" (join newline_str ["dev"; "staging"])) with true.
    rewrite !orb_true_r. cbn [orb bind].
    eexists. split; reflexivity.
  - intros -> ->. eexists. split; reflexivity.
Qed.

Lemma shrink_pass_marks_exactly_prod_witness :
  exists t',
    reconcile registry (role ["*"] [] (DeletedBool false))
              (role ["dev"; "staging"] [] (DeletedBool false)) = Ok t' /\
    deleted t'
    = DeletedList [mkDeleted true ["(111111111111|prod)"] ["dev"; "staging"]].
Proof.
  apply (proj1 (@shrink_pass_marks_exactly_prod
                  "111111111111" "222222222222" "333333333333" registry
                  (role ["*"] [] (DeletedBool false))
                  (role ["dev"; "staging"] [] (DeletedBool false))
                  eq_refl eq_refl)
               eq_refl eq_refl eq_refl eq_refl eq_refl eq_refl).
Defined.

(** ** Cross-matching *)

(** Every explicit shrink from [[a, b]] to [[b]] in which the plain matcher
    [a] occurs inside [b] leaves the record as it is: [a] is found in the
    joined current list and is not marked. *)
Lemma explicit_shrink_cross_match config main_template t a b :
  plain a = true ->
  plain b = true ->
  occurs a b = true ->
  included_accounts main_template = [a; b] ->
  included_accounts t = [b] ->
  excluded_accounts t = [] ->
  reconcile config main_template t = Ok t.
Proof.
  intros Ha Hb Hab Hm Ht He.
  destruct main_template as [mty mfp mrid mincl mexcl mdel].
  destruct t as [ty fp rid incl excl del].
  cbn [included_accounts excluded_accounts] in *. subst.
  unfold reconcile, accumulate, shrink_pass. cbn [included_accounts].
  cbn [contains]. rewrite (plain_not_wildcard _ Ha), (plain_not_wildcard _ Hb).
  cbn [orb negb for_each]. unfold explicit_step.
  rewrite !re_search_plain by assumption.
  change (join newline_str [b]) with b. rewrite Hab, occurs_refl.
  reflexivity.
Qed.

(** C10: coverage is decided by searching the newline-joined current
    [included_accounts], so an account dropped from scope whose identifier
    occurs inside a remaining one is found there and gets no deletion
    matcher: [prod] dropped next to [prod-eu], from an explicit baseline and
    from the wildcard with a registry holding both. *)
Theorem dropped_account_cross_matches :
  (exists main_template t dropped remaining,
      In dropped (included_accounts main_template) /\
      ~ In dropped (included_accounts t) /\
      In remaining (included_accounts t) /\
      dropped <> remaining /\
      occurs dropped remaining = true /\
      re_search dropped (join newline_str (included_accounts t)) = Ok true /\
      reconcile registry main_template t = Ok t) /\
  (exists config main_template t dropped remaining,
      In dropped (aws_accounts config) /\
      In remaining (aws_accounts config) /\
      included_accounts main_template = ["*"] /\
      included_accounts t = [account_name remaining] /\
      account_name dropped <> account_name remaining /\
      occurs (account_name dropped) (account_name remaining) = true /\
      re_search (account_regex dropped)
                (join newline_str (included_accounts t)) = Ok true /\
      reconcile config main_template t = Ok t).
Proof.
  split.
  - exists (role ["prod"; "prod-eu"] [] (DeletedBool false)),
           (role ["prod-eu"] [] (DeletedBool false)), "prod", "prod-eu".
    repeat split; try (vm_compute; reflexivity).
    + simpl; auto.
    + simpl. intros [H|[]]; discriminate.
    + simpl; auto.
    + discriminate.
  - exists (mkConfig [mkAWSAccount "111111111111" "prod";
                      mkAWSAccount "444444444444" "prod-eu"]),
           (role ["*"] [] (DeletedBool false)),
           (role ["prod-eu"] [] (DeletedBool false)),
           (mkAWSAccount "111111111111" "prod"),
           (mkAWSAccount "444444444444" "prod-eu").
    repeat split; try (vm_compute; reflexivity).
    + simpl; auto.
    + simpl; auto.
    + discriminate.
Qed.

(** * Further properties of the scope reconciler *)

(** ** When a reconciliation raises *)

Lemma re_search_ok_iff pattern s :
  (exists b, re_search pattern s = Ok b) <-> compiles pattern = true.
Proof.
  unfold re_search, compiles. destruct (Re.compile pattern); simpl; split;
    eauto; try discriminate. intros [b H]; discriminate.
Qed.

Lemma implicit_step_ok_iff str st aws_account :
  (exists st', implicit_step str st aws_account = Ok st')
  <-> compiles (account_regex aws_account) = true.
Proof.
  rewrite <- (re_search_ok_iff _ str). unfold implicit_step.
  destruct (re_search _ str) as [[|]|e]; simpl; split; eauto;
    intros [x H]; discriminate.
Qed.

Lemma explicit_step_ok_iff str st account :
  (exists st', explicit_step str st account = Ok st')
  <-> compiles account = true.
Proof.
  rewrite <- (re_search_ok_iff _ str). unfold explicit_step.
  destruct (re_search _ str) as [[|]|e]; simpl; split; eauto;
    intros [x H]; discriminate.
Qed.

Lemma re_search_raises pattern :
  compiles pattern = false -> exists e, forall s, re_search pattern s = Raise e.
Proof.
  unfold compiles, re_search. destruct (Re.compile pattern) as [r|e];
    [discriminate|]. intros _. exists e. reflexivity.
Qed.

Lemma excluded_step_ok_iff main_template acc account :
  (exists acc', excluded_step main_template acc account = Ok acc')
  <-> compiles account = true.
Proof.
  destruct acc as [st kept]. split.
  - intros [acc' H]. destruct (compiles account) eqn:Hc; [reflexivity|].
    exfalso. destruct (re_search_raises _ Hc) as [e He].
    unfold excluded_step, already_excluded, previously_included in H.
    destruct (main_template_excluded_accounts_str main_template) as [s0|].
    + rewrite !He in H. destruct (truthy (Some s0)); simpl in H; discriminate.
    + rewrite !He in H. simpl in H. discriminate.
  - intro Hc. rewrite excluded_step_classified by assumption. eauto.
Qed.

Lemma shrink_pass_excluded config main_template dea st st' :
  shrink_pass config main_template dea st = Ok st' ->
  excluded_accounts (template st') = excluded_accounts (template st).
Proof.
  unfold shrink_pass.
  destruct (negb (contains "*" dea)).
  - destruct (contains "*" (included_accounts main_template)); intro H.
    + apply (for_each_invariant _
               (fun s => excluded_accounts (template s)
                         = excluded_accounts (template st))) in H; auto.
      intros s a s' Hs Hd. rewrite <- Hd. unfold implicit_step in Hs.
      destruct (re_search _ _) as [[|]|e]; simpl in Hs; try discriminate;
        injection Hs as <-; reflexivity.
    + apply (for_each_invariant _
               (fun s => excluded_accounts (template s)
                         = excluded_accounts (template st))) in H; auto.
      intros s a s' Hs Hd. rewrite <- Hd. unfold explicit_step in Hs.
      destruct (re_search _ _) as [[|]|e]; simpl in Hs; try discriminate;
        injection Hs as <-; reflexivity.
  - intro H; injection H as <-; reflexivity.
Qed.

Lemma shrink_pass_ok_iff config main_template t :
  (exists st, shrink_pass config main_template (included_accounts t)
                (mkScope [] t) = Ok st)
  <-> Forall (fun p => compiles p = true)
        (if contains "*" (included_accounts t) then []
         else if contains "*" (included_accounts main_template)
              then map account_regex (aws_accounts config)
              else included_accounts main_template).
Proof.
  unfold shrink_pass.
  destruct (contains "*" (included_accounts t)); cbn [negb].
  - split; [constructor | eauto].
  - destruct (contains "*" (included_accounts main_template)).
    + rewrite Forall_map. apply for_each_ok_iff.
      intros s a. apply implicit_step_ok_iff.
    + apply for_each_ok_iff. intros s a. apply explicit_step_ok_iff.
Qed.

Lemma excluded_pass_ok_iff main_template st :
  (exists st', excluded_pass main_template st = Ok st')
  <-> Forall (fun p => compiles p = true) (excluded_accounts (template st)).
Proof.
  rewrite <- (for_each_ok_iff (excluded_step main_template)
                (fun p => compiles p = true)
                (fun acc a => excluded_step_ok_iff main_template acc a)
                (excluded_accounts (template st)) (st, [])).
  unfold excluded_pass.
  destruct (for_each _ _ _) as [[s kept]|e]; simpl; split; eauto;
    intros [x H]; discriminate.
Qed.

Lemma reconcile_ok_iff config main_template t :
  (exists t', reconcile config main_template t = Ok t')
  <-> Forall (fun p => compiles p = true)
        (consulted_patterns config main_template t).
Proof.
  unfold consulted_patterns. rewrite Forall_app.
  rewrite <- shrink_pass_ok_iff. unfold reconcile, accumulate. split.
  - intros [t' H].
    destruct (shrink_pass _ _ _ _) as [st|e] eqn:Hs; simpl in H; [|discriminate].
    split; [eauto|].
    rewrite <- (shrink_pass_excluded _ _ _ _ Hs : _ = excluded_accounts t).
    apply (proj1 (excluded_pass_ok_iff main_template st)).
    destruct (excluded_pass main_template st); simpl in H; [eauto | discriminate].
  - intros [[st Hs] He]. rewrite Hs; simpl.
    rewrite <- (shrink_pass_excluded _ _ _ _ Hs : _ = excluded_accounts t) in He.
    apply (proj2 (excluded_pass_ok_iff main_template st)) in He as [st' Hst'].
    rewrite Hst'; simpl. eauto.
Qed.

(** ** What a reconciliation returns *)

Lemma implicit_loop_marks str accounts :
  Forall (fun p => compiles p = true) (map account_regex accounts) ->
  forall st,
    for_each (implicit_step str) accounts st
    = Ok (mark_all (filter (fun p => negb (found p str))
                           (map account_regex accounts)) st).
Proof.
  induction accounts as [|a l IH]; intros Hall st.
  - simpl. rewrite mark_all_nil. reflexivity.
  - cbn [map] in Hall. inversion Hall as [|? ? Ha Hl]; subst.
    cbn [for_each map filter]. unfold implicit_step at 1.
    rewrite re_search_found by assumption. cbn [bind].
    destruct (found (account_regex a) str); cbn [negb bind];
      rewrite IH by assumption; [reflexivity | apply f_equal, mark_all_cons].
Qed.

Lemma explicit_loop_marks str l :
  Forall (fun p => compiles p = true) l ->
  forall st,
    for_each (explicit_step str) l st
    = Ok (mark_all (filter (fun p => negb (found p str)) l) st).
Proof.
  induction 1 as [|a l Ha Hl IH]; intro st.
  - simpl. rewrite mark_all_nil. reflexivity.
  - cbn [for_each filter]. unfold explicit_step at 1.
    rewrite re_search_found by assumption. cbn [bind].
    destruct (found a str); cbn [negb bind];
      rewrite IH; [reflexivity | apply f_equal, mark_all_cons].
Qed.

Lemma mark_all_app l1 l2 st : mark_all l2 (mark_all l1 st) = mark_all (l1 ++ l2) st.
Proof.
  unfold mark_all, set_included_accounts; simpl. rewrite !app_assoc. reflexivity.
Qed.

(** Both passes in closed form, for patterns that compile. *)
Lemma accumulate_marks config main_template t :
  Forall (fun p => compiles p = true) (consulted_patterns config main_template t) ->
  accumulate config main_template t
  = Ok (mkScope (all_marks config main_template t)
          (mkTemplate (template_type t) (file_path t) (resource_id t)
             (included_accounts t ++ all_marks config main_template t)
             (filter (fun a => negb (moved main_template a)) (excluded_accounts t))
             (deleted t))).
Proof.
  unfold consulted_patterns. rewrite Forall_app. intros [Hs He].
  assert (Hshrink : shrink_pass config main_template (included_accounts t)
                      (mkScope [] t)
                    = Ok (mark_all (shrink_marks config main_template t)
                                   (mkScope [] t))).
  { unfold shrink_pass, shrink_marks.
    destruct (contains "*" (included_accounts t)); cbn [negb].
    - rewrite mark_all_nil. reflexivity.
    - destruct (contains "*" (included_accounts main_template)).
      + apply implicit_loop_marks; assumption.
      + apply explicit_loop_marks; assumption. }
  unfold accumulate. rewrite Hshrink. cbn [bind]. unfold excluded_pass.
  rewrite excluded_loop_classified by exact He. cbn [bind].
  rewrite mark_all_app. unfold all_marks, mark_all. simpl.
  destruct t; reflexivity.
Qed.

(** Compiling a pattern raises nothing but a regex error. *)
Lemma parse_raises n : forall p cur stack e,
  length p <= n ->
  Re.parse p cur stack = Raise e -> e = ReError \/ e = ReUnsupported.
Proof.
  induction n as [|n IH]; intros p cur stack e Hlen H.
  - destruct p; [|simpl in Hlen; lia].
    simpl in H. destruct stack; [discriminate|]. injection H as <-. auto.
  - destruct p as [|c p].
    + simpl in H. destruct stack; [discriminate|]. injection H as <-. auto.
    + simpl in Hlen. cbn [Re.parse] in H. destruct (Re.classify c).
      * destruct (Re.starts_with_question p); [injection H as <-; auto|].
        eapply IH; [|eassumption]. lia.
      * destruct stack; [injection H as <-; auto|].
        eapply IH; [|eassumption]. lia.
      * eapply IH; [|eassumption]. lia.
      * unfold Re.add_quant in H.
        destruct (Re.f_last cur) as [[a [|]]|]; simpl in H.
        -- destruct q; injection H as <-; auto.
        -- eapply IH; [|eassumption]. lia.
        -- injection H as <-; auto.
      * eapply IH; [|eassumption]. lia.
      * destruct p as [|d p']; [injection H as <-; auto|].
        destruct (Re.is_alnum d); [injection H as <-; auto|].
        simpl in Hlen. eapply IH; [|eassumption]. lia.
      * injection H as <-; auto.
      * eapply IH; [|eassumption]. lia.
Qed.

Lemma for_each_raise_in {A S : Type} (body : S -> A -> result S) l :
  forall s e, for_each body l s = Raise e ->
              exists a s', In a l /\ body s' a = Raise e.
Proof.
  induction l as [|a l IH]; intros s e H; simpl in H; [discriminate|].
  destruct (body s a) as [s1|e1] eqn:Hb; simpl in H.
  - destruct (IH _ _ H) as [a' [s' [Hin Hr]]]. exists a', s'. split; [right|]; auto.
  - injection H as <-. exists a, s. split; [left; reflexivity | exact Hb].
Qed.

Lemma re_search_raise_compile pattern s e :
  re_search pattern s = Raise e -> Re.compile pattern = Raise e.
Proof.
  unfold re_search. destruct (Re.compile pattern); simpl; intro H;
    [discriminate | congruence].
Qed.

(** The exception of a reconciliation is that of compiling one of the
    patterns it consults. *)
Lemma reconcile_raises_from_pattern config main_template t e :
  reconcile config main_template t = Raise e ->
  exists p, In p (consulted_patterns config main_template t)
            /\ Re.compile p = Raise e.
Proof.
  unfold reconcile, accumulate, consulted_patterns. intro H.
  destruct (shrink_pass _ _ _ _) as [st|e1] eqn:Hs; simpl in H.
  - destruct (excluded_pass main_template st) as [st'|e2] eqn:He; simpl in H;
      [discriminate|].
    injection H as <-. unfold excluded_pass in He.
    destruct (for_each _ _ _) as [[s0 k0]|e3] eqn:Hl; simpl in He;
      [discriminate|].
    injection He as <-.
    rewrite (shrink_pass_excluded _ _ _ _ Hs) in Hl. cbn [template] in Hl.
    apply for_each_raise_in in Hl as [a [[s1 k1] [Hin Hstep]]].
    exists a. split; [apply in_or_app; right; exact Hin|].
    unfold excluded_step in Hstep.
    destruct (already_excluded main_template a) as [[|]|e4] eqn:Ha;
      simpl in Hstep; try discriminate.
    + unfold previously_included in Hstep.
      destruct (re_search a _) as [b|e5] eqn:Hr; simpl in Hstep.
      * destruct (b || _); discriminate.
      * injection Hstep as <-. eapply re_search_raise_compile; exact Hr.
    + injection Hstep as <-. unfold already_excluded in Ha.
      destruct (main_template_excluded_accounts_str main_template) as [s2|];
        [|discriminate].
      destruct (truthy (Some s2)); [|discriminate].
      eapply re_search_raise_compile; exact Ha.
  - injection H as <-. unfold shrink_pass in Hs.
    destruct (contains "*" (included_accounts t)); cbn [negb] in Hs;
      [discriminate|].
    destruct (contains "*" (included_accounts main_template)).
    + apply for_each_raise_in in Hs as [a [s0 [Hin Hstep]]].
      exists (account_regex a). split; [apply in_or_app; left;
                                        apply in_map; exact Hin|].
      unfold implicit_step in Hstep.
      destruct (re_search _ _) as [[|]|e5] eqn:Hr; simpl in Hstep;
        try discriminate.
      injection Hstep as <-. eapply re_search_raise_compile; exact Hr.
    + apply for_each_raise_in in Hs as [a [s0 [Hin Hstep]]].
      exists a. split; [apply in_or_app; left; exact Hin|].
      unfold explicit_step in Hstep.
      destruct (re_search _ _) as [[|]|e5] eqn:Hr; simpl in Hstep;
        try discriminate.
      injection Hstep as <-. eapply re_search_raise_compile; exact Hr.
Qed.

(** X1: when the patterns a reconciliation hands to [re.search] (the
    registry patterns or the baseline matchers of the shrink pass, and the
    current [excluded_accounts]) are within the fragment of [re] modelled
    here, the reconciliation returns a record exactly when all of them
    compile; otherwise it raises [re.error], for one of those patterns. *)
Theorem reconcile_succeeds_iff_patterns_compile config main_template t :
  Forall (fun p => Re.compile p <> Raise ReUnsupported)
         (consulted_patterns config main_template t) ->
  ((exists t', reconcile config main_template t = Ok t')
   <-> Forall (fun p => compiles p = true)
         (consulted_patterns config main_template t)) /\
  (forall e, reconcile config main_template t = Raise e ->
             e = ReError
             /\ exists p, In p (consulted_patterns config main_template t)
                          /\ Re.compile p = Raise ReError).
Proof.
  intro Hsup. split; [apply reconcile_ok_iff|].
  intros e H. apply reconcile_raises_from_pattern in H as [p [Hin Hp]].
  rewrite Forall_forall in Hsup. specialize (Hsup p Hin).
  assert (He : e = ReError).
  { assert (Hk : e = ReError \/ e = ReUnsupported)
      by (unfold Re.compile in Hp; eapply parse_raises; [apply le_n | exact Hp]).
    destruct Hk as [->| ->]; [reflexivity | contradiction]. }
  subst e. split; [reflexivity|]. exists p. auto.
Qed.

Lemma reconcile_succeeds_iff_patterns_compile_witness :
  reconcile registry (role ["prod"; "(staging"] [] (DeletedBool false))
            (role ["prod"] [] (DeletedBool false)) = Raise ReError.
Proof.
  destruct (reconcile registry (role ["prod"; "(staging"] [] (DeletedBool false))
              (role ["prod"] [] (DeletedBool false))) as [t'|e] eqn:H.
  - vm_compute in H. discriminate.
  - f_equal.
    apply (proj2 (@reconcile_succeeds_iff_patterns_compile registry
                    (role ["prod"; "(staging"] [] (DeletedBool false))
                    (role ["prod"] [] (DeletedBool false))
                    ltac:(repeat constructor; vm_compute; discriminate)) e H).
Defined.

Lemma reconcile_marks config main_template t t' :
  reconcile config main_template t = Ok t' ->
  t' = attach_directive (included_accounts t)
         (mkScope (all_marks config main_template t)
            (mkTemplate (template_type t) (file_path t) (resource_id t)
               (included_accounts t ++ all_marks config main_template t)
               (filter (fun a => negb (moved main_template a))
                       (excluded_accounts t))
               (deleted t))).
Proof.
  intro H. assert (Hc : Forall (fun p => compiles p = true)
                          (consulted_patterns config main_template t)).
  { apply reconcile_ok_iff. eauto. }
  unfold reconcile in H. rewrite (accumulate_marks _ _ _ Hc) in H.
  cbn [bind] in H. injection H as <-. reflexivity.
Qed.

Lemma attach_directive_identity dea st :
  template_type (attach_directive dea st) = template_type (template st) /\
  file_path (attach_directive dea st) = file_path (template st) /\
  resource_id (attach_directive dea st) = resource_id (template st).
Proof.
  unfold attach_directive.
  destruct (deleted_included_accounts st); [auto|].
  destruct (deleted_is_true (template st)); [auto|].
  destruct (deleted (template st)); auto.
Qed.

(** X2: a reconciliation that returns keeps the record's [template_type],
    [file_path] and [resource_id]; its [included_accounts] is the current
    list followed by every marked matcher (those of the shrink pass, then
    those of the newly-excluded pass), and its [excluded_accounts] is the
    current list without the matchers that pass moved. *)
Theorem reconcile_keeps_identity_and_extends_scope config main_template t t' :
  reconcile config main_template t = Ok t' ->
  template_type t' = template_type t /\
  file_path t' = file_path t /\
  resource_id t' = resource_id t /\
  included_accounts t'
  = included_accounts t ++ all_marks config main_template t /\
  excluded_accounts t'
  = filter (fun a => negb (moved main_template a)) (excluded_accounts t).
Proof.
  intro H. apply reconcile_marks in H. subst t'.
  destruct (attach_directive_identity (included_accounts t)
              (mkScope (all_marks config main_template t)
                 (mkTemplate (template_type t) (file_path t) (resource_id t)
                    (included_accounts t ++ all_marks config main_template t)
                    (filter (fun a => negb (moved main_template a))
                            (excluded_accounts t))
                    (deleted t)))) as [H1 [H2 H3]].
  destruct (attach_directive_other_fields (included_accounts t)
              (mkScope (all_marks config main_template t)
                 (mkTemplate (template_type t) (file_path t) (resource_id t)
                    (included_accounts t ++ all_marks config main_template t)
                    (filter (fun a => negb (moved main_template a))
                            (excluded_accounts t))
                    (deleted t)))) as [H4 H5].
  rewrite H1, H2, H3, H4, H5. simpl. auto.
Qed.

Lemma reconcile_keeps_identity_and_extends_scope_witness :
  exists t',
    reconcile registry (role ["prod"; "staging"; "dev"] [] (DeletedBool false))
              (role ["staging"; "dev"] ["dev"; "qa"] (DeletedBool false))
    = Ok t' /\
    included_accounts t' = ["staging"; "dev"; "prod"; "dev"] /\
    excluded_accounts t' = ["qa"].
Proof.
  eexists. split; [vm_compute; reflexivity|].
  pose proof (@reconcile_keeps_identity_and_extends_scope registry
                (role ["prod"; "staging"; "dev"] [] (DeletedBool false))
                (role ["staging"; "dev"] ["dev"; "qa"] (DeletedBool false))
                _ ltac:(vm_compute; reflexivity)) as [_ [_ [_ [H4 H5]]]].
  split; [exact H4 | exact H5].
Defined.

(** ** The shrink pass never marks an account that is still listed *)

Lemma plain_compiles a : plain a = true -> compiles a = true.
Proof. intro H. unfold compiles. rewrite re_compile_plain by assumption. reflexivity. Qed.

Lemma plain_list_has_no_wildcard l :
  Forall (fun a => plain a = true) l -> contains "*" l = false.
Proof.
  induction 1 as [|a l Ha Hl IH]; [reflexivity|].
  cbn [contains]. rewrite (plain_not_wildcard _ Ha), IH. reflexivity.
Qed.

Lemma account_regex_compiles aws_account :
  plain (account_id aws_account) = true ->
  plain (account_name aws_account) = true ->
  compiles (account_regex aws_account) = true.
Proof.
  intros Hi Hn. apply (re_search_ok_iff _ ""). 
  rewrite re_search_account_regex by assumption. eauto.
Qed.

Lemma found_account_regex aws_account s :
  plain (account_id aws_account) = true ->
  plain (account_name aws_account) = true ->
  found (account_regex aws_account) s
  = occurs (account_id aws_account) s || occurs (account_name aws_account) s.
Proof.
  intros Hi Hn. unfold found.
  rewrite re_search_account_regex by assumption. reflexivity.
Qed.

(** X3: with an explicit baseline of plain matchers and no current
    exclusions, the reconciliation returns; what it marks is exactly the
    baseline matchers that do not occur in the newline-joined current
    [included_accounts], in baseline order, so every marked matcher is a
    baseline matcher that is no longer listed: an account still listed is
    never marked. *)
Theorem explicit_shrink_marks_only_dropped config main_template t :
  Forall (fun a => plain a = true) (included_accounts main_template) ->
  excluded_accounts t = [] ->
  exists t',
    reconcile config main_template t = Ok t' /\
    included_accounts t'
    = included_accounts t ++ all_marks config main_template t /\
    (contains "*" (included_accounts t) = false ->
     all_marks config main_template t
     = filter (fun a => negb (occurs a (join newline_str (included_accounts t))))
              (included_accounts main_template)) /\
    forall a, In a (all_marks config main_template t) ->
              In a (included_accounts main_template) /\
              ~ In a (included_accounts t).
Proof.
  intros Hplain Hex.
  pose proof (plain_list_has_no_wildcard Hplain) as Hnw.
  assert (Hc : Forall (fun p => compiles p = true)
                 (consulted_patterns config main_template t)).
  { unfold consulted_patterns. rewrite Hex, app_nil_r, Hnw.
    destruct (contains "*" (included_accounts t)); [constructor|].
    eapply Forall_impl; [|exact Hplain]. apply plain_compiles. }
  apply reconcile_ok_iff in Hc as [t' Ht']. exists t'. split; [exact Ht'|].
  split; [|split].
  - apply reconcile_marks in Ht'. subst t'.
    apply attach_directive_other_fields.
  - intro Hnt. unfold all_marks, shrink_marks.
    rewrite Hex, app_nil_r, Hnw, Hnt.
    apply filter_ext_in. intros a Ha. rewrite Forall_forall in Hplain.
    rewrite found_plain by (apply Hplain; assumption). reflexivity.
  - intros a Ha. unfold all_marks, shrink_marks in Ha.
    rewrite Hex, app_nil_r, Hnw in Ha.
    destruct (contains "*" (included_accounts t)); [contradiction|].
    apply filter_In in Ha as [Hin Hf]. split; [exact Hin|].
    intro Hcur. rewrite Forall_forall in Hplain.
    rewrite found_plain in Hf by (apply Hplain; assumption).
    rewrite (occurs_join_member _ _ Hcur) in Hf. discriminate.
Qed.

Lemma explicit_shrink_marks_only_dropped_witness :
  exists t',
    reconcile registry (role ["prod"; "staging"; "dev"] [] (DeletedBool false))
              (role ["dev"; "qa"] [] (DeletedBool false)) = Ok t' /\
    included_accounts t' = ["dev"; "qa"; "prod"; "staging"].
Proof.
  destruct (@explicit_shrink_marks_only_dropped registry
              (role ["prod"; "staging"; "dev"] [] (DeletedBool false))
              (role ["dev"; "qa"] [] (DeletedBool false))
              ltac:(repeat constructor) eq_refl) as [t' [H1 [H2 _]]].
  exists t'. split; [exact H1 | exact H2].
Defined.

Lemma filter_map_swap {A B : Type} (f : B -> bool) (g : A -> B) l :
  filter f (map g l) = map g (filter (fun a => f (g a)) l).
Proof.
  induction l as [|a l IH]; simpl; [reflexivity|].
  destruct (f (g a)); simpl; rewrite IH; reflexivity.
Qed.

(** X4: with a wildcard baseline, a registry of plain ids and names and no
    current exclusions, the reconciliation returns; what it marks is exactly
    the patterns of the registry accounts whose id and name both fail to
    occur in the newline-joined current [included_accounts], in registry
    order, so every marked pattern is that of an account whose id and name
    are both absent from the current list. *)
Theorem wildcard_shrink_marks_only_unlisted config main_template t :
  Forall (fun acct => plain (account_id acct) = true
                      /\ plain (account_name acct) = true)
         (aws_accounts config) ->
  contains "*" (included_accounts main_template) = true ->
  excluded_accounts t = [] ->
  exists t',
    reconcile config main_template t = Ok t' /\
    included_accounts t'
    = included_accounts t ++ all_marks config main_template t /\
    (contains "*" (included_accounts t) = false ->
     all_marks config main_template t
     = map account_regex
         (filter (fun acct =>
                    negb (occurs (account_id acct)
                                 (join newline_str (included_accounts t))
                          || occurs (account_name acct)
                                    (join newline_str (included_accounts t))))
                 (aws_accounts config))) /\
    forall p, In p (all_marks config main_template t) ->
      exists acct,
        In acct (aws_accounts config) /\ p = account_regex acct /\
        ~ In (account_id acct) (included_accounts t) /\
        ~ In (account_name acct) (included_accounts t).
Proof.
  intros Hplain Hw Hex. rewrite Forall_forall in Hplain.
  assert (Hc : Forall (fun p => compiles p = true)
                 (consulted_patterns config main_template t)).
  { unfold consulted_patterns. rewrite Hex, app_nil_r, Hw.
    destruct (contains "*" (included_accounts t)); [constructor|].
    rewrite Forall_map, Forall_forall. intros acct Hin.
    apply account_regex_compiles; apply Hplain; assumption. }
  apply reconcile_ok_iff in Hc as [t' Ht']. exists t'. split; [exact Ht'|].
  split; [|split].
  - apply reconcile_marks in Ht'. subst t'.
    apply attach_directive_other_fields.
  - intro Hnt. unfold all_marks, shrink_marks.
    rewrite Hex, app_nil_r, Hw, Hnt, filter_map_swap. f_equal.
    apply filter_ext_in. intros acct Ha. destruct (Hplain _ Ha) as [Hi Hn].
    rewrite found_account_regex by assumption. reflexivity.
  - intros p Hp. unfold all_marks, shrink_marks in Hp.
    rewrite Hex, app_nil_r, Hw in Hp.
    destruct (contains "*" (included_accounts t)); [contradiction|].
    apply filter_In in Hp as [Hin Hf].
    apply in_map_iff in Hin as [acct [<- Hacct]].
    exists acct. split; [exact Hacct|]. split; [reflexivity|].
    destruct (Hplain _ Hacct) as [Hi Hn].
    rewrite found_account_regex in Hf by assumption.
    apply negb_true_iff, orb_false_iff in Hf as [Hfi Hfn].
    split; intro Hcur;
      [rewrite (occurs_join_member _ _ Hcur) in Hfi
      | rewrite (occurs_join_member _ _ Hcur) in Hfn]; discriminate.
Qed.

Lemma wildcard_shrink_marks_only_unlisted_witness :
  exists t',
    reconcile registry (role ["*"] [] (DeletedBool false))
              (role ["staging"; "333333333333"] [] (DeletedBool false)) = Ok t' /\
    included_accounts t'
    = ["staging"; "333333333333"; "(111111111111|prod)"].
Proof.
  destruct (@wildcard_shrink_marks_only_unlisted registry
              (role ["*"] [] (DeletedBool false))
              (role ["staging"; "333333333333"] [] (DeletedBool false))
              ltac:(repeat constructor) eq_refl eq_refl) as [t' [H1 [H2 _]]].
  exists t'. split; [exact H1 | exact H2].
Defined.

(** ** Records that come back unchanged *)

Lemma filter_none {A : Type} (f : A -> bool) l :
  (forall a, In a l -> f a = false) -> filter f l = [].
Proof.
  induction l as [|a l IH]; intro H; [reflexivity|]. simpl.
  rewrite (H a) by (left; reflexivity). apply IH. intros b Hb. apply H. right; assumption.
Qed.

Lemma filter_all {A : Type} (f : A -> bool) l :
  (forall a, In a l -> f a = true) -> filter f l = l.
Proof.
  induction l as [|a l IH]; intro H; [reflexivity|]. simpl.
  rewrite (H a) by (left; reflexivity). f_equal. apply IH.
  intros b Hb. apply H. right; assumption.
Qed.

Lemma filter_nil_none {A : Type} (f : A -> bool) l :
  filter f l = [] -> forall a, In a l -> f a = false.
Proof.
  induction l as [|a l IH]; intros H b Hb; [contradiction|]. simpl in H.
  destruct (f a) eqn:E; [discriminate|].
  destruct Hb as [<-|Hb]; [exact E | apply IH; assumption].
Qed.

(** When nothing is marked, the record comes back as it was parsed. *)
Lemma reconcile_unmarked config main_template t t' :
  reconcile config main_template t = Ok t' ->
  all_marks config main_template t = [] ->
  t' = t.
Proof.
  intros H Hm. apply reconcile_marks in H. rewrite Hm in H.
  rewrite app_nil_r in H. unfold attach_directive in H. simpl in H. subst t'.
  unfold all_marks in Hm. apply app_eq_nil in Hm as [_ Hm].
  rewrite filter_all.
  - destruct t; reflexivity.
  - intros a Ha. rewrite (filter_nil_none _ _ Hm a Ha). reflexivity.
Qed.

(** X5: a reconciliation that marks nothing returns the current record
    exactly as parsed; one whose record has [deleted = True] returns it with
    [deleted = True]; and in every case the directives already held come
    back first, in order, followed by at most one new directive. *)
Theorem reconcile_preserves_deletion_history config main_template t t' :
  reconcile config main_template t = Ok t' ->
  (all_marks config main_template t = [] -> t' = t) /\
  (deleted t = DeletedBool true -> deleted t' = DeletedBool true) /\
  exists added,
    directives (deleted t') = directives (deleted t) ++ added /\
    length added <= 1.
Proof.
  intro H. split; [apply reconcile_unmarked; assumption|].
  pose proof (reconcile_marks _ _ _ H) as Ht'.
  destruct (all_marks config main_template t) as [|m ms] eqn:Hm.
  - clear Ht'. assert (Heq : t' = t) by (eapply reconcile_unmarked; eauto).
    rewrite Heq.
    split; [auto|]. exists []. rewrite app_nil_r. split; [reflexivity | simpl; lia].
  - assert (Hd : deleted t'
                 = match deleted t with
                   | DeletedBool true => DeletedBool true
                   | DeletedBool false =>
                       DeletedList [deleted_obj (m :: ms) (included_accounts t)]
                   | DeletedList l =>
                       DeletedList (l ++ [deleted_obj (m :: ms) (included_accounts t)])
                   end).
    { rewrite Ht'. rewrite attach_directive_nonempty by (simpl; discriminate).
      reflexivity. }
    split.
    + intro Htrue. rewrite Hd, Htrue. reflexivity.
    + rewrite Hd. destruct (deleted t) as [[|]|l]; simpl.
      * exists []. split; [reflexivity | simpl; lia].
      * eexists. split; [reflexivity | simpl; lia].
      * eexists. split; [reflexivity | simpl; lia].
Qed.

Lemma reconcile_preserves_deletion_history_witness :
  exists t',
    reconcile registry (role ["prod"; "staging"] [] (DeletedBool false))
              (role ["staging"] [] (DeletedBool true)) = Ok t' /\
    deleted t' = DeletedBool true /\
    included_accounts t' = ["staging"; "prod"].
Proof.
  eexists. split; [vm_compute; reflexivity|].
  split; [|reflexivity].
  apply (proj1 (proj2 (@reconcile_preserves_deletion_history registry
           (role ["prod"; "staging"] [] (DeletedBool false))
           (role ["staging"] [] (DeletedBool true))
           _ ltac:(vm_compute; reflexivity)))).
  reflexivity.
Defined.

(** X6: reconciling a record against itself changes nothing: when the
    baseline and the current record are the same, the exclusions are plain
    non-empty matchers and the inclusions are plain matchers or hold the
    wildcard, the record is returned as it is and no directive is made. *)
Theorem reconcile_against_itself_is_identity config t :
  contains "*" (included_accounts t) = true
  \/ Forall (fun a => plain a = true) (included_accounts t) ->
  Forall (fun a => plain a = true /\ a <> "") (excluded_accounts t) ->
  reconcile config t t = Ok t.
Proof.
  intros Hinc Hexc. rewrite Forall_forall in Hexc.
  assert (Hc : Forall (fun p => compiles p = true) (consulted_patterns config t t)).
  { unfold consulted_patterns. rewrite Forall_app. split.
    - destruct Hinc as [Hw|Hp].
      + rewrite Hw. constructor.
      + rewrite (plain_list_has_no_wildcard Hp).
        eapply Forall_impl; [|exact Hp]. apply plain_compiles.
    - rewrite Forall_forall. intros a Ha. apply plain_compiles, Hexc, Ha. }
  apply reconcile_ok_iff in Hc as [t' Ht'].
  rewrite Ht'. f_equal. eapply reconcile_unmarked; [exact Ht'|].
  unfold all_marks.
  assert (Hnil : forall l1 l2 : list string, l1 = [] -> l2 = [] -> l1 ++ l2 = [])
    by (intros l1 l2 -> ->; reflexivity).
  apply Hnil.
  - unfold shrink_marks. destruct Hinc as [Hw|Hp].
    + rewrite Hw. reflexivity.
    + rewrite (plain_list_has_no_wildcard Hp). apply filter_none.
      intros a Ha. rewrite Forall_forall in Hp.
      rewrite found_plain by (apply Hp; assumption).
      rewrite (occurs_join_member _ _ Ha). reflexivity.
  - apply filter_none. intros a Ha. destruct (Hexc a Ha) as [Hp Hne].
    unfold moved. rewrite member_already_excluded by assumption. reflexivity.
Qed.

Lemma reconcile_against_itself_is_identity_witness :
  reconcile registry (role ["prod"; "staging"] ["qa"] (DeletedBool false))
            (role ["prod"; "staging"] ["qa"] (DeletedBool false))
  = Ok (role ["prod"; "staging"] ["qa"] (DeletedBool false)).
Proof.
  apply (@reconcile_against_itself_is_identity registry
           (role ["prod"; "staging"] ["qa"] (DeletedBool false))).
  - right. repeat constructor.
  - repeat constructor; discriminate.
Defined.



(** * The newly-excluded pass and the specification's classes *)

(** C3 (as stated) fails when "already excluded in the baseline" is read as
    the specification words it, presence in [baseline.excluded_accounts]:
    the code searches for the matcher, as a regular expression, in the
    newline-joined list.  With a wildcard baseline that excludes [prod-eu],
    a newly excluded [prod] is not in the baseline's [excluded_accounts] and
    is live, yet it stays excluded and no directive is made; and [a+b],
    excluded in both revisions, is not found in the text [a+b], is moved to
    a directive and is dropped from [excluded_accounts]. *)
Lemma newly_excluded_membership_reading_fails :
  let main := role ["*"] ["prod-eu"] (DeletedBool false) in
  let t := role ["*"] ["prod"] (DeletedBool false) in
  let both := role ["*"] ["a+b"] (DeletedBool false) in
  (spec_classify_excluded main "prod" = MovedToDirective /\
   classify_excluded main "prod" = AlreadyExcluded /\
   reconcile registry main t = Ok t) /\
  (spec_classify_excluded both "a+b" = AlreadyExcluded /\
   classify_excluded both "a+b" = MovedToDirective /\
   reconcile registry both both
   = Ok (role ["*"; "a+b"] [] (DeletedList [mkDeleted true ["a+b"] []]))).
Proof. vm_compute. repeat split. Qed.

(** C3 (as amended): for current [excluded_accounts] whose matchers compile
    as regular expressions, the newly-excluded pass puts every matcher in
    exactly one class ([classify_excluded]), decided by [re.search] and not
    by membership: found in the baseline's non-empty newline-joined
    [excluded_accounts], then it stays in the rebuilt [excluded_accounts]
    and nothing is marked; otherwise found in the baseline's newline-joined
    [included_accounts], or the baseline holds the wildcard, then it is
    appended to [deleted_included_accounts] (the directive's
    [included_accounts]) and to the current [included_accounts] and is
    dropped from the rebuilt [excluded_accounts]; otherwise it stays as an
    ordinary exclusion.  A plain non-empty matcher listed in the baseline's
    [excluded_accounts] is in the first class.  For a whole reconciliation
    whose current [included_accounts] holds the wildcard (so that the shrink
    pass marks nothing): against a wildcard baseline that excludes nothing, a
    single newly excluded matcher, when [deleted] is not [True], is moved
    into one new directive and leaves [excluded_accounts] empty; and when
    every current exclusion is a plain non-empty matcher listed in the
    baseline's [excluded_accounts], the record comes back unchanged, with no
    directive. *)
Theorem newly_excluded_pass_classifies :
  (forall main_template st,
      Forall (fun a => compiles a = true) (excluded_accounts (template st)) ->
      let excl := excluded_accounts (template st) in
      (forall a, moved main_template a
                 = negb (baseline_excludes main_template a)
                   && baseline_live main_template a) /\
      (forall a, plain a = true -> a <> "" ->
                 In a (excluded_accounts main_template) ->
                 moved main_template a = false) /\
      exists st',
        excluded_pass main_template st = Ok st' /\
        deleted_included_accounts st'
        = deleted_included_accounts st ++ filter (moved main_template) excl /\
        included_accounts (template st')
        = included_accounts (template st) ++ filter (moved main_template) excl /\
        excluded_accounts (template st')
        = filter (fun a => negb (moved main_template a)) excl) /\
  (forall config main_template t a,
      contains "*" (included_accounts t) = true ->
      contains "*" (included_accounts main_template) = true ->
      excluded_accounts main_template = [] ->
      excluded_accounts t = [a] ->
      compiles a = true ->
      deleted t <> DeletedBool true ->
      reconcile config main_template t
      = Ok (mkTemplate (template_type t) (file_path t) (resource_id t)
              (included_accounts t ++ [a]) []
              (DeletedList
                 (directives (deleted t)
                  ++ [mkDeleted true [a]
                        (filter not_wildcard (included_accounts t))])))) /\
  (forall config main_template t,
      contains "*" (included_accounts t) = true ->
      Forall (fun a => plain a = true /\ a <> ""
                       /\ In a (excluded_accounts main_template))
             (excluded_accounts t) ->
      reconcile config main_template t = Ok t).
Proof.
  split; [|split].
  - intros main_template st Hall excl. split; [|split].
    + intro a. unfold moved, classify_excluded.
      destruct (baseline_excludes main_template a); simpl; [reflexivity|].
      destruct (baseline_live main_template a); reflexivity.
    + intros a Hp Hne Hin. unfold moved.
      rewrite member_already_excluded by assumption. reflexivity.
    + unfold excluded_pass.
      rewrite (excluded_loop_classified main_template Hall). simpl.
      eexists; split; [reflexivity|]. simpl. auto.
  - intros config main_template t a Hwt Hwm Hem Het Hc Hd.
    assert (Hpat : Forall (fun p => compiles p = true)
                     (consulted_patterns config main_template t)).
    { unfold consulted_patterns. rewrite Hwt, Het. repeat constructor.
      exact Hc. }
    assert (Hmoved : moved main_template a = true).
    { unfold moved, classify_excluded, baseline_excludes, baseline_live.
      rewrite Hem, Hwm, orb_true_r. reflexivity. }
    assert (Hmarks : all_marks config main_template t = [a]).
    { unfold all_marks, shrink_marks. rewrite Hwt, Het. cbn [filter app].
      rewrite Hmoved. reflexivity. }
    apply reconcile_ok_iff in Hpat as [t' Ht']. rewrite Ht'. f_equal.
    apply reconcile_marks in Ht'. rewrite Hmarks, Het in Ht'.
    cbn [filter] in Ht'. rewrite Hmoved in Ht'. cbn [negb] in Ht'.
    subst t'. unfold attach_directive, deleted_is_true, deleted_obj.
    cbn [deleted_included_accounts template deleted set_deleted].
    destruct (deleted t) as [[|]|ds]; [contradiction Hd; reflexivity| |];
      reflexivity.
  - intros config main_template t Hwt Hexc. rewrite Forall_forall in Hexc.
    assert (Hpat : Forall (fun p => compiles p = true)
                     (consulted_patterns config main_template t)).
    { unfold consulted_patterns. rewrite Hwt. cbn [app].
      rewrite Forall_forall. intros a Ha. apply plain_compiles, Hexc, Ha. }
    apply reconcile_ok_iff in Hpat as [t' Ht']. rewrite Ht'. f_equal.
    eapply reconcile_unmarked; [exact Ht'|].
    unfold all_marks, shrink_marks. rewrite Hwt. cbn [app].
    apply filter_none. intros a Ha. destruct (Hexc a Ha) as [Hp [Hne Hin]].
    unfold moved. rewrite member_already_excluded by assumption. reflexivity.
Qed.

Lemma newly_excluded_pass_classifies_witness :
  (exists st',
      excluded_pass (role ["prod"; "staging"] ["dev"] (DeletedBool false))
        (mkScope [] (role ["prod"; "staging"] ["dev"; "staging"; "qa"]
                          (DeletedBool false))) = Ok st' /\
      deleted_included_accounts st' = ["staging"] /\
      included_accounts (template st') = ["prod"; "staging"; "staging"] /\
      excluded_accounts (template st') = ["dev"; "qa"]) /\
  reconcile registry (role ["*"] [] (DeletedBool false))
                     (role ["*"] ["prod"] (DeletedBool false))
  = Ok (role ["*"; "prod"] [] (DeletedList [mkDeleted true ["prod"] []])) /\
  reconcile registry (role ["*"] ["prod"] (DeletedBool false))
                     (role ["*"] ["prod"] (DeletedBool false))
  = Ok (role ["*"] ["prod"] (DeletedBool false)).
Proof.
  destruct newly_excluded_pass_classifies as [Hpass [Hnew Hkept]].
  split; [|split].
  - destruct (Hpass (role ["prod"; "staging"] ["dev"] (DeletedBool false))
                (mkScope [] (role ["prod"; "staging"] ["dev"; "staging"; "qa"]
                                  (DeletedBool false))))
      as [_ [_ H]].
    + simpl. repeat constructor.
    + exact H.
  - apply (Hnew registry (role ["*"] [] (DeletedBool false))
                (role ["*"] ["prod"] (DeletedBool false)) "prod"
                eq_refl eq_refl eq_refl eq_refl eq_refl).
    discriminate.
  - apply (Hkept registry (role ["*"] ["prod"] (DeletedBool false))
                 (role ["*"] ["prod"] (DeletedBool false)) eq_refl).
    repeat constructor. discriminate.
Defined.

(** * Further properties: the differencer on the sample repository *)

Lemma ordinary_modification_emits_one_record_witness :
  modified_step sample_world "/repo" (mkFiles [] [] [])
                (renamed "notes kept beside the templates")
  = Ok (mkFiles [] []
          [mkGitDiff "/repo/groups/platform.yaml"
                     (Some "notes kept beside the templates") false]).
Proof.
  apply (@ordinary_modification_emits_one_record sample_world "/repo"
           (mkFiles [] [] []) (renamed "notes kept beside the templates")
           "notes kept beside the templates" platform_doc
           eq_refl eq_refl eq_refl eq_refl).
  right. reflexivity.
Defined.

Lemma rename_keeping_identity_is_a_modification_witness :
  modified_step sample_world_by_email "/repo" (mkFiles [] [] [])
                (renamed platform_doc_v0)
  = Ok (mkFiles [] []
          [mkGitDiff "/repo/groups/platform.yaml" (Some platform_doc_v0) false]).
Proof.
  apply (proj2 (@rename_keeping_identity_is_a_modification
           sample_world_by_email
           "/repo" (mkFiles [] [] []) (renamed platform_doc_v0)
           platform_doc_v0 platform_doc platform_doc_v0 platform_doc tt
           (mkTemplate "NOQ::Google::Group" "/repo/groups/infra.yaml"
                       "platform@example.com" ["*"] [] (DeletedBool false))
           (mkTemplate "NOQ::Google::Group" "/repo/groups/platform.yaml"
                       "platform@example.com" ["*"] [] (DeletedBool false))
           eq_refl eq_refl eq_refl eq_refl eq_refl eq_refl eq_refl eq_refl
           eq_refl eq_refl eq_refl eq_refl)).
  reflexivity.
Defined.

Lemma rename_with_unknown_type_raises_witness :
  modified_step sample_world "/repo" (mkFiles [] [] []) (renamed unknown_type_doc)
  = Raise KeyError.
Proof.
  apply (proj1 (@rename_with_unknown_type_raises sample_world "/repo"
                  (mkFiles [] [] []) (renamed unknown_type_doc)
                  unknown_type_doc platform_doc unknown_type_doc platform_doc
                  KeyError
                  eq_refl eq_refl eq_refl ltac:(vm_compute; discriminate)
                  eq_refl eq_refl eq_refl eq_refl eq_refl eq_refl)).
Defined.

Lemma collect_bucket_shapes_witness :
  Forall (fun g => content g = None /\ is_deleted g = false
                   /\ endswith (path g) ".yaml" = true)
         [mkGitDiff "/repo/groups/platform.yaml" None false] /\
  Forall (fun g => is_deleted g = true
                   /\ exists text, content g = Some text
                                   /\ sample_noq_template text = true)
         [mkGitDiff "/repo/groups/retired.yaml" (Some retired_doc) true;
          mkGitDiff "/repo/groups/infra.yaml" (Some infra_doc) true].
Proof.
  pose proof (@collect_bucket_shapes sample_world "/repo"
                [renamed infra_doc;
                 mkDiff ChangeD "groups/retired.yaml" "groups/retired.yaml"
                        (Some retired_doc)]
                (mkFiles [mkGitDiff "/repo/groups/platform.yaml" None false]
                         [mkGitDiff "/repo/groups/retired.yaml"
                                    (Some retired_doc) true;
                          mkGitDiff "/repo/groups/infra.yaml"
                                    (Some infra_doc) true]
                         [])
                ltac:(vm_compute; reflexivity)) as [H1 [H2 _]].
  split; [exact H1 | exact H2].
Defined.

Lemma unmanaged_entries_are_ignored_witness :
  collect sample_world "/repo"
    [mkDiff ChangeA "" "README.md" None;
     mkDiff ChangeD "notes.yaml" "notes.yaml" (Some "no tag here");
     mkDiff ChangeM "setup.cfg" "setup.cfg" (Some "[metadata]")]
  = Ok (mkFiles [] [] []).
Proof.
  apply (@unmanaged_entries_are_ignored sample_world "/repo").
  apply Forall_cons; [left; reflexivity|].
  apply Forall_cons;
    [right; exists "no tag here"; split; reflexivity|].
  apply Forall_cons; [left; reflexivity | apply Forall_nil].
Defined.

(** * Further properties: cloning *)

Lemma clone_loop_app (c : GitClient) base l1 l2 (st : clone_state c) :
  clone_loop base (l1 ++ l2) st
  = match clone_loop base l1 st with
    | Returned st' => clone_loop base l2 st'
    | GitCommandError st' stderr => GitCommandError st' stderr
    end.
Proof.
  revert st. induction l1 as [|r l1 IH]; intro st; [reflexivity|].
  cbn [app clone_loop]. destruct (clone_step base st r); [apply IH | reflexivity].
Qed.

(** X16: when a clone is refused with an error other than "already exists
    and is not an empty directory", [clone_git_repos] re-raises it: the
    repositories that follow are never attempted, nothing is fetched or
    pulled for the failing one, and no dict is returned. *)
Theorem clone_failure_aborts (c : GitClient) d0 base before repository after
    st d' stderr :
  clone_git_repos c d0 before base = Returned st ->
  clone_from c (disk st) (git_uri repository)
             (os_path_join base (repo_name repository)) = (d', inr stderr) ->
  occurs already_exists stderr = false ->
  clone_git_repos c d0 (before ++ repository :: after) base
  = GitCommandError
      (mkCloneState c d'
         (actions st ++ [CloneFrom (git_uri repository)
                                   (os_path_join base (repo_name repository))])
         (repos st))
      stderr.
Proof.
  unfold clone_git_repos. intros Hb Hc Hocc.
  rewrite clone_loop_app, Hb. cbn [clone_loop]. unfold clone_step.
  rewrite Hc, Hocc. reflexivity.
Qed.

Lemma clone_failure_aborts_witness :
  clone_git_repos sample_git [] [mkRepository "templates" "https://git.example/templates";
                                 mkRepository "private" "ssh:git.example/private";
                                 mkRepository "later" "https://git.example/later"]
                  "/srv"
  = GitCommandError
      (mkCloneState sample_git ["/srv/templates"]
         [CloneFrom "https://git.example/templates" "/srv/templates";
          CloneFrom "ssh:git.example/private" "/srv/private"]
         [("templates", main_repo)])
      "fatal: Could not read from remote repository.".
Proof.
  apply (@clone_failure_aborts sample_git [] "/srv"
           [mkRepository "templates" "https://git.example/templates"]
           (mkRepository "private" "ssh:git.example/private")
           [mkRepository "later" "https://git.example/later"]
           (mkCloneState sample_git ["/srv/templates"]
              [CloneFrom "https://git.example/templates" "/srv/templates"]
              [("templates", main_repo)])
           ["/srv/templates"] "fatal: Could not read from remote repository."
           eq_refl eq_refl eq_refl).
Defined.

Lemma dict_set_keys repos0 k v k' :
  In k' (map fst (dict_set repos0 k v)) <-> In k' (map fst repos0) \/ k' = k.
Proof.
  induction repos0 as [|[k0 v0] l IH]; simpl.
  - intuition congruence.
  - destruct (String.eqb k0 k) eqn:E; simpl.
    + apply String.eqb_eq in E; subst. intuition congruence.
    + rewrite IH. tauto.
Qed.

Lemma dict_set_NoDup repos0 k v :
  NoDup (map fst repos0) -> NoDup (map fst (dict_set repos0 k v)).
Proof.
  induction repos0 as [|[k0 v0] l IH]; simpl; intro H.
  - constructor; [intros [] | constructor].
  - inversion H as [|? ? Hnot Hl]; subst.
    destruct (String.eqb k0 k) eqn:E; simpl.
    + constructor; assumption.
    + constructor; [|apply IH; assumption].
      rewrite dict_set_keys. intros [Hin| ->]; [contradiction|].
      rewrite String.eqb_refl in E. discriminate.
Qed.

Lemma clone_loop_returned (c : GitClient) base l : forall st st' : clone_state c,
  clone_loop base l st = Returned st' ->
  (forall name, In name (map fst (repos st'))
                <-> In name (map fst (repos st)) \/ In name (map repo_name l)) /\
  (NoDup (map fst (repos st)) -> NoDup (map fst (repos st'))) /\
  filter (fun a => match a with CloneFrom _ _ => true | _ => false end)
         (actions st')
  = filter (fun a => match a with CloneFrom _ _ => true | _ => false end)
           (actions st)
    ++ map (fun r => CloneFrom (git_uri r) (os_path_join base (repo_name r))) l.
Proof.
  induction l as [|r l IH]; intros st st' H.
  - cbn [clone_loop] in H. injection H as <-. simpl. rewrite app_nil_r.
    repeat split; tauto.
  - cbn [clone_loop] in H.
    destruct (clone_step base st r) as [st1|st1 err] eqn:Hstep; [|discriminate].
    destruct (IH _ _ H) as [Hk [Hn Hf]].
    assert (Hs : (forall name, In name (map fst (repos st1))
                               <-> In name (map fst (repos st))
                                   \/ name = repo_name r) /\
                 (NoDup (map fst (repos st)) -> NoDup (map fst (repos st1))) /\
                 filter (fun a => match a with CloneFrom _ _ => true
                                               | _ => false end) (actions st1)
                 = filter (fun a => match a with CloneFrom _ _ => true
                                                 | _ => false end) (actions st)
                   ++ [CloneFrom (git_uri r) (os_path_join base (repo_name r))]).
    { unfold clone_step in Hstep.
      destruct (clone_from c (disk st) (git_uri r) _) as [d [repo|stderr]].
      - injection Hstep as <-. cbn [repos actions].
        split; [intro; apply dict_set_keys|].
        split; [apply dict_set_NoDup|].
        rewrite filter_app. reflexivity.
      - destruct (negb (occurs already_exists stderr)); [discriminate|].
        injection Hstep as <-. cbn [repos actions].
        split; [intro; apply dict_set_keys|].
        split; [apply dict_set_NoDup|].
        rewrite !filter_app. cbn [filter].
        assert (Hnone : forall p l0,
                   filter (fun a => match a with CloneFrom _ _ => true
                                                 | _ => false end)
                          (map (RemoteFetch p) l0) = []).
        { intros p l0. induction l0; simpl; auto. }
        rewrite Hnone, !app_nil_r. reflexivity. }
    destruct Hs as [Hk1 [Hn1 Hf1]].
    split; [|split].
    + intro name. rewrite Hk, Hk1. simpl. intuition congruence.
    + intro Hnd. apply Hn, Hn1, Hnd.
    + rewrite Hf, Hf1, <- app_assoc. reflexivity.
Qed.

(** X17: when [clone_git_repos] returns, the dict has exactly the names of
    the configured repositories as keys, each once, and one clone was
    attempted per configured repository, in the configured order, at
    [repo_base_path] joined with its name. *)
Theorem clone_returns_one_entry_per_name (c : GitClient) d0 repositories base st :
  clone_git_repos c d0 repositories base = Returned st ->
  (forall name, In name (map fst (repos st))
                <-> In name (map repo_name repositories)) /\
  NoDup (map fst (repos st)) /\
  filter (fun a => match a with CloneFrom _ _ => true | _ => false end)
         (actions st)
  = map (fun r => CloneFrom (git_uri r) (os_path_join base (repo_name r)))
        repositories.
Proof.
  unfold clone_git_repos. intro H.
  destruct (clone_loop_returned _ _ _ H) as [Hk [Hn Hf]]. cbn in Hk, Hn, Hf.
  split; [|split].
  - intro name. rewrite Hk. tauto.
  - apply Hn. constructor.
  - exact Hf.
Qed.

Lemma clone_returns_one_entry_per_name_witness :
  NoDup (map fst [("templates", main_repo); ("audit", main_repo)]) /\
  filter (fun a => match a with CloneFrom _ _ => true | _ => false end)
         [CloneFrom "https://git.example/templates" "/srv/templates";
          CloneFrom "https://git.example/audit" "/srv/audit";
          CloneFrom "https://git.example/templates" "/srv/templates";
          RemoteFetch "/srv/templates" "origin";
          GitPull "/srv/templates"]
  = [CloneFrom "https://git.example/templates" "/srv/templates";
     CloneFrom "https://git.example/audit" "/srv/audit";
     CloneFrom "https://git.example/templates" "/srv/templates"].
Proof.
  pose proof (@clone_returns_one_entry_per_name sample_git []
                [mkRepository "templates" "https://git.example/templates";
                 mkRepository "audit" "https://git.example/audit";
                 mkRepository "templates" "https://git.example/templates"]
                "/srv"
                (mkCloneState sample_git ["/srv/audit"; "/srv/templates"]
                   [CloneFrom "https://git.example/templates" "/srv/templates";
                    CloneFrom "https://git.example/audit" "/srv/audit";
                    CloneFrom "https://git.example/templates" "/srv/templates";
                    RemoteFetch "/srv/templates" "origin";
                    GitPull "/srv/templates"]
                   [("templates", main_repo); ("audit", main_repo)])
                ltac:(vm_compute; reflexivity)) as [_ [H2 H3]].
  split; [exact H2 | exact H3].
Defined.

(** * Further properties: Google groups *)

Lemma before_at_has_no_at s :
  ~ In "@"%char (list_ascii_of_string (before_at s)).
Proof.
  induction s as [|c s IH]; simpl; [tauto|].
  destruct (Ascii.eqb c "@") eqn:E; simpl; [tauto|].
  intros [H|H]; [|contradiction].
  subst. rewrite Ascii.eqb_refl in E. discriminate.
Qed.

Lemma before_at_prefix s :
  s = before_at s \/ exists rest, s = (before_at s ++ "@" ++ rest)%string.
Proof.
  induction s as [|c s IH]; simpl; [left; reflexivity|].
  destruct (Ascii.eqb c "@") eqn:E.
  - apply Ascii.eqb_eq in E; subst. right. exists s. reflexivity.
  - destruct IH as [IH|[rest IH]].
    + left. f_equal. exact IH.
    + right. exists rest. cbn [append]. f_equal. exact IH.
Qed.

Lemma endswith_refl s : endswith s s = true.
Proof. destruct s; cbn [endswith]; rewrite String.eqb_refl; reflexivity. Qed.

(** X18: the template that [get_group_template] builds for a group is filed
    under [google_groups/<domain>/<local part>.yaml], where the local part is
    the address up to its first [@] (the whole address when it has none): the
    path always has the [.yaml] extension that [retrieve_git_changes]
    requires, and the group's name, address, description and domain are
    copied. *)
Theorem group_template_is_filed_by_local_part (E : GoogleEnums)
    list_members group domain t :
  get_group_template E list_members group domain = Ok t ->
  group_file_path t
  = ("google_groups/" ++ domain ++ "/" ++ before_at (g_email group) ++ ".yaml")%string /\
  endswith (group_file_path t) ".yaml" = true /\
  ~ In "@"%char (list_ascii_of_string (before_at (g_email group))) /\
  (g_email group = before_at (g_email group)
   \/ exists rest,
        g_email group = (before_at (g_email group) ++ "@" ++ rest)%string) /\
  group_name t = g_name group /\ group_email t = g_email group /\
  group_description t = g_description group /\ group_domain t = domain.
Proof.
  unfold get_group_template.
  destruct (group_members_of E _) as [ms|e]; simpl; [|discriminate].
  intro H. injection H as <-.
  cbn [group_file_path group_name group_email group_description group_domain].
  repeat split.
  - apply (endswith_app "google_groups/"), endswith_app, (endswith_app "/"),
      endswith_app, endswith_refl.
  - apply before_at_has_no_at.
  - apply before_at_prefix.
Qed.

Lemma group_template_is_filed_by_local_part_witness :
  exists t,
    get_group_template sample_enums sample_listing
      (mkGroupDict "platform@example.com" "Platform" "Platform team")
      "example.com" = Ok t /\
    group_file_path t = "google_groups/example.com/platform.yaml".
Proof.
  eexists. split; [vm_compute; reflexivity|].
  apply (proj1 (@group_template_is_filed_by_local_part sample_enums
                  sample_listing
                  (mkGroupDict "platform@example.com" "Platform" "Platform team")
                  "example.com" _ ltac:(vm_compute; reflexivity))).
Defined.

Lemma group_member_of_ok (E : GoogleEnums) member :
  (exists m, group_member_of E member = Ok m)
  <-> GroupMemberRole E (m_role member) <> None
      /\ GroupMemberType E (m_type member) <> None
      /\ GroupMemberStatus E (m_status member) <> None.
Proof.
  unfold group_member_of, enum_of.
  destruct (GroupMemberRole E _), (GroupMemberType E _),
    (GroupMemberStatus E _); simpl; split; intro H;
    first [ solve [repeat split; discriminate]
          | solve [eauto]
          | solve [destruct H as [x Hx]; discriminate]
          | solve [destruct H as [H1 [H2 H3]]; congruence] ].
Qed.

Lemma group_member_of_fields (E : GoogleEnums) member m :
  group_member_of E member = Ok m ->
  member_email m = m_email member /\ member_expand m = false /\
  member_subscription m = Subscription_EACH_EMAIL E /\
  GroupMemberRole E (m_role member) = Some (member_role m) /\
  GroupMemberType E (m_type member) = Some (member_type m) /\
  GroupMemberStatus E (m_status member) = Some (member_status m).
Proof.
  unfold group_member_of, enum_of.
  destruct (GroupMemberRole E _), (GroupMemberType E _),
    (GroupMemberStatus E _); simpl; try discriminate.
  intro H. injection H as <-. simpl. repeat split.
Qed.

Lemma group_member_of_raises (E : GoogleEnums) member e :
  group_member_of E member = Raise e -> e = ValueError.
Proof.
  unfold group_member_of, enum_of.
  destruct (GroupMemberRole E _), (GroupMemberType E _),
    (GroupMemberStatus E _); simpl; congruence.
Qed.

Lemma group_members_of_spec (E : GoogleEnums) l :
  (forall ms, group_members_of E l = Ok ms
              <-> Forall2 (fun member m => group_member_of E member = Ok m) l ms) /\
  (forall e, group_members_of E l = Raise e -> e = ValueError).
Proof.
  induction l as [|member l [IHok IHerr]]; simpl.
  - split.
    + intro ms. split.
      * intro H. injection H as <-. constructor.
      * intro H. inversion H. reflexivity.
    + discriminate.
  - destruct (group_member_of E member) as [m|e0] eqn:Hm; simpl.
    + destruct (group_members_of E l) as [ms0|e0] eqn:Hl; simpl.
      * split; [|discriminate]. intro ms. split.
        -- intro H. injection H as <-. constructor; [assumption|].
           apply IHok. reflexivity.
        -- intro H. inversion H as [|? y ? ys Hy Hys]; subst.
           rewrite Hm in Hy. injection Hy as <-.
           apply IHok in Hys. injection Hys as <-. reflexivity.
      * split.
        -- intro ms. split; [discriminate|]. intro H.
           inversion H as [|? y ? ys Hy Hys]; subst.
           apply IHok in Hys. discriminate.
        -- intros e H. injection H as <-. apply IHerr. reflexivity.
    + split.
      * intro ms. split; [discriminate|]. intro H.
        inversion H as [|? y ? ys Hy Hys]; subst. rewrite Hm in Hy. discriminate.
      * intros e H. injection H as <-. eapply group_member_of_raises; eassumption.
Qed.

(** X19: [get_group_template] returns a template exactly when the role, type
    and status of every listed member are values of their enumerations, and
    raises [ValueError] otherwise; the template's members are the listed
    ones, in the listed order, with their addresses and converted role, type
    and status, never expanded and subscribed to each email; with no
    listing the group has no members. *)
Theorem group_template_members_follow_listing (E : GoogleEnums)
    list_members group domain :
  let listing := match list_members (g_email group) with
                 | Some l => l
                 | None => []
                 end in
  ((exists t, get_group_template E list_members group domain = Ok t)
   <-> Forall (fun member =>
                 GroupMemberRole E (m_role member) <> None
                 /\ GroupMemberType E (m_type member) <> None
                 /\ GroupMemberStatus E (m_status member) <> None) listing) /\
  (forall e, get_group_template E list_members group domain = Raise e ->
             e = ValueError) /\
  (forall t, get_group_template E list_members group domain = Ok t ->
     Forall2 (fun member m =>
                member_email m = m_email member /\ member_expand m = false /\
                member_subscription m = Subscription_EACH_EMAIL E /\
                GroupMemberRole E (m_role member) = Some (member_role m) /\
                GroupMemberType E (m_type member) = Some (member_type m) /\
                GroupMemberStatus E (m_status member) = Some (member_status m))
             listing (members t)) /\
  (list_members (g_email group) = None ->
   exists t, get_group_template E list_members group domain = Ok t
             /\ members t = []).
Proof.
  intro listing. unfold get_group_template. fold listing.
  split; [|split; [|split]].
  - split.
    + intros [t H].
      destruct (group_members_of E listing) as [ms|e] eqn:Hms; simpl in H;
        [|discriminate].
      apply (proj1 (group_members_of_spec E listing)) in Hms. clear H.
      induction Hms as [|member m l ms Hm Hl IH]; constructor; [|assumption].
      apply group_member_of_ok. eauto.
    + intro Hall.
      assert (Hex : exists ms, Forall2 (fun member m =>
                                          group_member_of E member = Ok m)
                                       listing ms).
      { induction Hall as [|member l Hm Hl [ms IH]].
        - exists []. constructor.
        - apply group_member_of_ok in Hm as [m Hm].
          exists (m :: ms). constructor; assumption. }
      destruct Hex as [ms Hms].
      apply (proj1 (group_members_of_spec E listing)) in Hms.
      rewrite Hms. simpl. eauto.
  - intros e H.
    destruct (group_members_of E listing) as [ms|e0] eqn:Hms; simpl in H;
      [discriminate|].
    injection H as <-.
    apply (proj2 (group_members_of_spec E listing)). exact Hms.
  - intros t H.
    destruct (group_members_of E listing) as [ms|e0] eqn:Hms; simpl in H;
      [|discriminate].
    injection H as <-. cbn [members].
    apply (proj1 (group_members_of_spec E listing)) in Hms.
    induction Hms as [|member m l ms Hm Hl IH]; constructor; [|assumption].
    apply group_member_of_fields. assumption.
  - intro Hnone. subst listing. rewrite Hnone. simpl. eauto.
Qed.

(** ** Applying a group template *)

Lemma concat_all_empty {A : Type} (ls : list (list A)) :
  existsb (fun l => negb (Nat.eqb (length l) 0)) ls = false -> concat ls = [].
Proof.
  induction ls as [|l ls IH]; simpl; [reflexivity|].
  intro H. apply orb_false_iff in H as [Hl Hls].
  destruct l; [|discriminate]. simpl. apply IH. assumption.
Qed.

(** When the group is there and the five updates return, their changes are
    appended in the order of the tasks. *)
Lemma apply_updates_ok (E : GoogleEnums) (api : GroupApi E) self google_project
    execute g change_details c1 c2 c3 c4 c5 :
  update_group_domain api (group_domain g) (group_domain self) execute = Ok c1 ->
  update_group_email api (group_email g) (group_email self) (group_domain self)
    google_project execute = Ok c2 ->
  update_group_name api (group_email self) (group_name g) (group_name self)
    (group_domain self) google_project execute = Ok c3 ->
  update_group_description api (group_email self) (group_description g)
    (group_description self) (group_domain self) google_project execute = Ok c4 ->
  update_group_members api (group_email self) (members g) (members self)
    (group_domain self) google_project execute = Ok c5 ->
  apply_updates api self google_project execute (Some g) change_details
  = Ok (mkAccountChangeDetails
          (account change_details) (acd_resource_id change_details)
          (current_value change_details) (new_value change_details)
          (proposed_changes change_details ++ c1 ++ c2 ++ c3 ++ c4 ++ c5)).
Proof.
  intros H1 H2 H3 H4 H5. unfold apply_updates. cbn [attributes_of bind gather].
  rewrite H1, H2, H3, H4, H5. cbn [bind].
  destruct (existsb _ [c1; c2; c3; c4; c5]) eqn:Hany.
  - cbn [concat]. rewrite app_nil_r. reflexivity.
  - apply concat_all_empty in Hany. cbn [concat] in Hany.
    rewrite app_nil_r in Hany. rewrite Hany, app_nil_r.
    destruct change_details; reflexivity.
Qed.

(** X20: a dry run never calls [create_group]; for a group that does not
    exist it returns at once, proposing exactly the [CREATE] change with no
    current value, whatever the update coroutines would return. *)
Theorem dry_run_never_creates (E : GoogleEnums) (api : GroupApi E)
    self google_project d :
  fst (_apply_to_account api self google_project false d) = [] /\
  (get_group api d (group_email self) (group_domain self) google_project = None ->
   snd (_apply_to_account api self google_project false d)
   = Ok (mkAccountChangeDetails (group_domain self) (group_email self) None
           (apply_resource_dict self)
           [create_change api (group_email self) "google:group"])).
Proof.
  unfold _apply_to_account.
  destruct (get_group api d _ _ google_project); simpl; split;
    try reflexivity; discriminate.
Qed.

(** X21: for a group that exists, no group is created and no [CREATE] is
    proposed: when the five updates return, the details name the domain as
    account and the address as resource, carry the group found as current
    value, and propose the changes of the domain, email, name, description
    and members updates, in that order. *)
Theorem existing_group_collects_updates (E : GoogleEnums) (api : GroupApi E)
    self google_project execute d g c1 c2 c3 c4 c5 :
  get_group api d (group_email self) (group_domain self) google_project = Some g ->
  update_group_domain api (group_domain g) (group_domain self) execute = Ok c1 ->
  update_group_email api (group_email g) (group_email self) (group_domain self)
    google_project execute = Ok c2 ->
  update_group_name api (group_email self) (group_name g) (group_name self)
    (group_domain self) google_project execute = Ok c3 ->
  update_group_description api (group_email self) (group_description g)
    (group_description self) (group_domain self) google_project execute = Ok c4 ->
  update_group_members api (group_email self) (members g) (members self)
    (group_domain self) google_project execute = Ok c5 ->
  _apply_to_account api self google_project execute d
  = ([], Ok (mkAccountChangeDetails (group_domain self) (group_email self)
               (Some g) (apply_resource_dict self)
               (c1 ++ c2 ++ c3 ++ c4 ++ c5))).
Proof.
  intros Hg H1 H2 H3 H4 H5. unfold _apply_to_account. rewrite Hg.
  rewrite (@apply_updates_ok E api self google_project execute g _
             c1 c2 c3 c4 c5 H1 H2 H3 H4 H5).
  reflexivity.
Qed.

Lemma existing_group_collects_updates_witness :
  _apply_to_account sample_api (platform_group "Platform team") tt false
                    [platform_group "Platform"]
  = ([], Ok (mkAccountChangeDetails "example.com" "platform@example.com"
               (Some (platform_group "Platform"))
               (apply_resource_dict (platform_group "Platform team"))
               ["description"])).
Proof.
  apply (@existing_group_collects_updates sample_enums sample_api
           (platform_group "Platform team") tt false
           [platform_group "Platform"] (platform_group "Platform")
           [] [] [] ["description"] []
           eq_refl eq_refl eq_refl eq_refl eq_refl eq_refl).
Defined.

(** X22: when the group does not exist and the run executes, [create_group]
    is called exactly once, with the template's address as id; if the group
    still cannot be read afterwards the call raises [AttributeError];
    otherwise the details carry the group read back as current value and
    propose [CREATE] first, followed by the changes of the five updates
    computed against that group. *)
Theorem missing_group_is_created_then_updated (E : GoogleEnums)
    (api : GroupApi E) self google_project d :
  get_group api d (group_email self) (group_domain self) google_project = None ->
  let d' := create_group api d (group_email self) (group_domain self)
              (group_email self) (group_name self) (group_description self)
              google_project in
  let run := _apply_to_account api self google_project true d in
  fst run = [CreateGroup (group_email self) (group_domain self)
                         (group_email self) (group_name self)
                         (group_description self)] /\
  (get_group api d' (group_email self) (group_domain self) google_project = None ->
   snd run = Raise AttributeError) /\
  (forall g c1 c2 c3 c4 c5,
      get_group api d' (group_email self) (group_domain self) google_project
      = Some g ->
      update_group_domain api (group_domain g) (group_domain self) true = Ok c1 ->
      update_group_email api (group_email g) (group_email self)
        (group_domain self) google_project true = Ok c2 ->
      update_group_name api (group_email self) (group_name g) (group_name self)
        (group_domain self) google_project true = Ok c3 ->
      update_group_description api (group_email self) (group_description g)
        (group_description self) (group_domain self) google_project true
      = Ok c4 ->
      update_group_members api (group_email self) (members g) (members self)
        (group_domain self) google_project true = Ok c5 ->
      snd run
      = Ok (mkAccountChangeDetails (group_domain self) (group_email self)
              (Some g) (apply_resource_dict self)
              (create_change api (group_email self) "google:group"
                 :: c1 ++ c2 ++ c3 ++ c4 ++ c5))).
Proof.
  intros Hnone d' run. subst run. unfold _apply_to_account. rewrite Hnone.
  cbn [negb fst snd]. fold d'. split; [reflexivity|]. split.
  - intros ->. reflexivity.
  - intros g c1 c2 c3 c4 c5 Hg H1 H2 H3 H4 H5. rewrite Hg.
    rewrite (@apply_updates_ok E api self google_project true g _
               c1 c2 c3 c4 c5 H1 H2 H3 H4 H5).
    reflexivity.
Qed.

Lemma missing_group_is_created_then_updated_witness :
  _apply_to_account sample_api (platform_group "Platform team") tt true []
  = ([CreateGroup "platform@example.com" "example.com" "platform@example.com"
                  "Platform" "Platform team"],
     Ok (mkAccountChangeDetails "example.com" "platform@example.com"
           (Some (platform_group "Platform team"))
           (apply_resource_dict (platform_group "Platform team"))
           ["create google:group platform@example.com"])).
Proof.
  pose proof (@missing_group_is_created_then_updated sample_enums sample_api
                (platform_group "Platform team") tt [] eq_refl) as [H1 [_ H3]].
  specialize (H3 (platform_group "Platform team") [] [] [] [] []
                 eq_refl eq_refl eq_refl eq_refl eq_refl eq_refl).
  rewrite (surjective_pairing (_apply_to_account sample_api _ tt true [])).
  rewrite H1, H3. reflexivity.
Defined.
